(** * git-commit-ai: the prompt builder and the response parser of [GeminiClient]

    A shallow embedding of [GeminiClient.buildPrompt] and
    [GeminiClient.parseResponse] (gemini-client.ts) together with the part of
    the JavaScript runtime they call: string methods, array methods,
    [JSON.parse], property reads and the [||] operator. *)

From Stdlib Require Import String Ascii NArith ZArith QArith Qabs Bool Lia List.
From Stdlib Require Import DecimalString.
Import ListNotations.

Local Close Scope Q_scope.
Local Open Scope list_scope.

(** ** The JavaScript runtime, as far as the client uses it *)

Module JS.

(** A JavaScript string is a sequence of UTF-16 code units. *)
Abbreviation char16 := N (only parsing).
Definition jsstring := list char16.

(** [str "..."] is the string whose code units are the bytes of an ASCII
    literal of this file. *)
Definition str (s : string) : jsstring :=
  map N_of_ascii (list_ascii_of_string s).

(** The double quote U+0022, and a literal between two of them. *)
Definition dquote : jsstring := [34%N].
Definition quoted (s : string) : jsstring := dquote ++ str s ++ dquote.

(** WhiteSpace and LineTerminator code points of ECMAScript, the characters
    [String.prototype.trim] removes. *)
Definition isWhiteSpace (c : char16) : bool :=
  ((9 <=? c) && (c <=? 13) || (c =? 32) || (c =? 160) || (c =? 5760)
   || (8192 <=? c) && (c <=? 8202) || (c =? 8232) || (c =? 8233)
   || (c =? 8239) || (c =? 8287) || (c =? 12288) || (c =? 65279))%N.

Fixpoint trimStart (s : jsstring) : jsstring :=
  match s with
  | c :: rest => if isWhiteSpace c then trimStart rest else s
  | [] => []
  end.

Definition trimEnd (s : jsstring) : jsstring := rev (trimStart (rev s)).

(** [s.trim()] *)
Definition trim (s : jsstring) : jsstring := trimEnd (trimStart s).

(** [s.split(sep)] for a separator of one code unit: the pieces between the
    occurrences of [sep]; a string without [sep] (the empty one too) gives an
    array of one piece. *)
Fixpoint split (sep : char16) (s : jsstring) : list jsstring :=
  match s with
  | [] => [[]]
  | c :: rest =>
      if (c =? sep)%N then [] :: split sep rest
      else match split sep rest with
           | piece :: pieces => (c :: piece) :: pieces
           | [] => [[c]]
           end
  end.

(** [s.includes(c)] and [s.startsWith(c)] for a search string of one code
    unit. *)
Definition includes (c : char16) (s : jsstring) : bool :=
  existsb (N.eqb c) s.

Definition startsWith (c : char16) (s : jsstring) : bool :=
  match s with
  | c' :: _ => (c' =? c)%N
  | [] => false
  end.

(** [a.join(sep)] on an array of strings. *)
Fixpoint join (sep : jsstring) (a : list jsstring) : jsstring :=
  match a with
  | [] => []
  | [x] => x
  | x :: rest => x ++ sep ++ join sep rest
  end.

Definition nl : jsstring := [10%N].

(** [a.slice(0, n)] *)
Definition slice0 {A : Type} (n : nat) (a : list A) : list A := firstn n a.

(** [s.replace(/\n?/g, '')]: the pattern matches a line feed where there is
    one and the empty string elsewhere; either match is replaced by the empty
    string, and after an empty match the scan moves on past the next code
    unit, which stays. *)
Fixpoint replace_optional_newline (s : jsstring) : jsstring :=
  match s with
  | [] => []
  | c :: rest =>
      if (c =? 10)%N then replace_optional_newline rest
      else c :: replace_optional_newline rest
  end.

(** *** Values

    What [JSON.parse] can produce, and [undefined], which reading a missing
    property gives.  A number is kept as the exact rational its literal
    denotes; the runtime holds the nearest double, and the model takes the
    rounding into account where the client observes it ([toBoolean]).  An
    object is its own properties in creation order, each name once. *)
#[warnings="-register-all"]
Inductive value : Type :=
| Undefined
| Null
| Bool (b : bool)
| Num (q : Q)
| Str (s : jsstring)
| Arr (elements : list value)
| Obj (properties : list (jsstring * value)).

Fixpoint eqb_string (a b : jsstring) : bool :=
  match a, b with
  | [], [] => true
  | x :: a', y :: b' => (x =? y)%N && eqb_string a' b'
  | _, _ => false
  end.

(** The literal's value rounds to the double zero: it is zero, or at most
    half the least positive double (2^-1074), a tie going to the even
    neighbour, zero. *)
Definition roundsToZero (q : Q) : bool :=
  Qle_bool (Qabs q) (1 # (2 ^ 1075))%Q.

(** ToBoolean, the test behind [||], [&&], [?:] and [filter]. *)
Definition toBoolean (v : value) : bool :=
  match v with
  | Undefined | Null => false
  | Bool b => b
  | Num q => negb (roundsToZero q)
  | Str s => match s with [] => false | _ :: _ => true end
  | Arr _ | Obj _ => true
  end.

(** [a || b] *)
Definition or_else (a b : value) : value :=
  if toBoolean a then a else b.

Definition isArray (v : value) : bool :=
  match v with Arr _ => true | _ => false end.

(** *** Completions: a JavaScript expression returns or throws *)
Inductive exn : Type := SyntaxError | TypeError.

Inductive completion (A : Type) : Type :=
| Normal (a : A)
| Throw (e : exn).
Arguments Normal {A} a.
Arguments Throw {A} e.

Definition bind {A B : Type} (c : completion A) (k : A -> completion B)
  : completion B :=
  match c with
  | Normal a => k a
  | Throw e => Throw e
  end.

Notation "x <- c ;; k" := (bind c (fun x => k))
  (at level 61, c at next level, right associativity).

(** [try { body } catch (error) { handler }] *)
Definition try_catch {A : Type} (body : completion A)
  (handler : exn -> completion A) : completion A :=
  match body with
  | Normal a => Normal a
  | Throw e => handler e
  end.

(** [a.map(f)]: the callback runs on the elements in order, and the first
    throw ends the call. *)
Fixpoint Array_map {A B : Type} (f : A -> completion B) (a : list A)
  : completion (list B) :=
  match a with
  | [] => Normal []
  | x :: rest =>
      y <- f x ;;
      ys <- Array_map f rest ;;
      Normal (y :: ys)
  end.

(** *** Property reads

    [o.name] for a name that is neither an array index nor [length] nor a
    member of a built-in prototype ([suggestions], [message], [confidence]
    and [reasoning] are such names): an object gives its own property or
    [undefined], [null] and [undefined] throw a TypeError, every other value
    gives [undefined]. *)
Fixpoint getOwnProperty (props : list (jsstring * value)) (name : jsstring)
  : value :=
  match props with
  | [] => Undefined
  | (k, v) :: rest => if eqb_string k name then v else getOwnProperty rest name
  end.

Definition get (o : value) (name : jsstring) : completion value :=
  match o with
  | Undefined | Null => Throw TypeError
  | Obj props => Normal (getOwnProperty props name)
  | Bool _ | Num _ | Str _ | Arr _ => Normal Undefined
  end.

(** CreateDataProperty: a new name goes last, a name already there keeps its
    place and takes the new value. *)
Fixpoint defineProperty (props : list (jsstring * value)) (name : jsstring)
  (v : value) : list (jsstring * value) :=
  match props with
  | [] => [(name, v)]
  | (k, w) :: rest =>
      if eqb_string k name then (k, v) :: rest
      else (k, w) :: defineProperty rest name v
  end.

(** *** JSON.parse

    The JSON grammar of ECMA-404, which [JSON.parse] follows: white space is
    tab, line feed, carriage return and space; a text is one value between
    white space. *)
Definition isJSONWhiteSpace (c : char16) : bool :=
  ((c =? 9) || (c =? 10) || (c =? 13) || (c =? 32))%N.

Fixpoint skipWhiteSpace (s : jsstring) : jsstring :=
  match s with
  | c :: rest => if isJSONWhiteSpace c then skipWhiteSpace rest else s
  | [] => []
  end.

Definition isDigit (c : char16) : bool := ((48 <=? c) && (c <=? 57))%N.

Definition hexValue (c : char16) : option N :=
  if isDigit c then Some (c - 48)%N
  else if ((97 <=? c) && (c <=? 102))%N then Some (c - 87)%N
  else if ((65 <=? c) && (c <=? 70))%N then Some (c - 55)%N
  else None.

Definition hex4 (a b c d : char16) : option char16 :=
  match hexValue a, hexValue b, hexValue c, hexValue d with
  | Some x, Some y, Some z, Some w => Some (((x * 16 + y) * 16 + z) * 16 + w)%N
  | _, _, _, _ => None
  end.

(** The character a one-letter escape stands for. *)
Definition escape (c : char16) : option char16 :=
  if (c =? 34)%N then Some 34%N
  else if (c =? 92)%N then Some 92%N
  else if (c =? 47)%N then Some 47%N
  else if (c =? 98)%N then Some 8%N
  else if (c =? 102)%N then Some 12%N
  else if (c =? 110)%N then Some 10%N
  else if (c =? 114)%N then Some 13%N
  else if (c =? 116)%N then Some 9%N
  else None.

Definition consChar (c : char16) (r : option (jsstring * jsstring))
  : option (jsstring * jsstring) :=
  match r with
  | Some (chars, rest) => Some (c :: chars, rest)
  | None => None
  end.

(** The characters of a string literal after its opening quote, up to the
    closing quote: the string's value and the text after the literal.
    Control characters below U+0020 must be escaped. *)
Fixpoint stringChars (s : jsstring) : option (jsstring * jsstring) :=
  match s with
  | [] => None
  | c :: rest =>
      if (c =? 34)%N then Some ([], rest)
      else if (c =? 92)%N then
        match rest with
        | [] => None
        | e :: rest1 =>
            if (e =? 117)%N then
              match rest1 with
              | h1 :: h2 :: h3 :: h4 :: rest2 =>
                  match hex4 h1 h2 h3 h4 with
                  | Some u => consChar u (stringChars rest2)
                  | None => None
                  end
              | _ => None
              end
            else
              match escape e with
              | Some u => consChar u (stringChars rest1)
              | None => None
              end
        end
      else if (c <? 32)%N then None
      else consChar c (stringChars rest)
  end.

(** The leading decimal digits of a text, and the text after them. *)
Fixpoint digits (s : jsstring) : list N * jsstring :=
  match s with
  | c :: rest =>
      if isDigit c then let (ds, r) := digits rest in ((c - 48)%N :: ds, r)
      else ([], s)
  | [] => ([], [])
  end.

Definition decimalValue (ds : list N) : N :=
  fold_left (fun acc d => (10 * acc + d)%N) ds 0%N.

Definition pow10 (e : Z) : Q :=
  match e with
  | Z0 => 1%Q
  | Zpos p => inject_Z (10 ^ Zpos p)
  | Zneg p => (1 # (10 ^ p))%Q
  end.

(** int: a single 0, or a non-zero digit and more digits. *)
Definition intPart (s : jsstring) : option (list N * jsstring) :=
  match s with
  | c :: rest =>
      if (c =? 48)%N then Some ([0%N], rest)
      else if isDigit c then let (ds, r) := digits rest in Some ((c - 48)%N :: ds, r)
      else None
  | [] => None
  end.

(** frac: nothing, or a point and at least one digit. *)
Definition fracPart (s : jsstring) : option (list N * jsstring) :=
  match s with
  | c :: rest =>
      if (c =? 46)%N then
        match digits rest with
        | ([], _) => None
        | (ds, r) => Some (ds, r)
        end
      else Some ([], s)
  | [] => Some ([], [])
  end.

Definition exponentDigits (s : jsstring) : option (Z * jsstring) :=
  match digits s with
  | ([], _) => None
  | (ds, r) => Some (Z.of_N (decimalValue ds), r)
  end.

Definition signedExponent (s : jsstring) : option (Z * jsstring) :=
  match s with
  | c :: rest =>
      if (c =? 45)%N then
        match exponentDigits rest with
        | Some (e, r) => Some ((- e)%Z, r)
        | None => None
        end
      else if (c =? 43)%N then exponentDigits rest
      else exponentDigits s
  | [] => None
  end.

(** exp: nothing, or e or E, an optional sign and at least one digit. *)
Definition expPart (s : jsstring) : option (Z * jsstring) :=
  match s with
  | c :: rest =>
      if ((c =? 101) || (c =? 69))%N then signedExponent rest
      else Some (0%Z, s)
  | [] => Some (0%Z, [])
  end.

(** int, frac and exp: the value is the digits of int and frac, scaled by
    ten to the exponent less the number of frac digits. *)
Definition unsignedNumber (s : jsstring) : option (Q * jsstring) :=
  match intPart s with
  | None => None
  | Some (ints, s2) =>
      match fracPart s2 with
      | None => None
      | Some (fracs, s3) =>
          match expPart s3 with
          | None => None
          | Some (e, s4) =>
              let mantissa := Z.of_N (decimalValue (ints ++ fracs)) in
              let scale := pow10 (e - Z.of_nat (length fracs)) in
              Some (Qred (inject_Z mantissa * scale)%Q, s4)
          end
      end
  end.

(** A number literal: an optional minus sign, int, frac, exp. *)
Definition parseNumber (s : jsstring) : option (Q * jsstring) :=
  match s with
  | c :: rest =>
      if (c =? 45)%N then
        match unsignedNumber rest with
        | Some (q, r) => Some (Qopp q, r)
        | None => None
        end
      else unsignedNumber s
  | [] => None
  end.

(** [stripPrefix p s]: the text after [p] when [s] begins with [p]. *)
Fixpoint stripPrefix (p s : jsstring) : option jsstring :=
  match p, s with
  | [], _ => Some s
  | x :: p', y :: s' => if (x =? y)%N then stripPrefix p' s' else None
  | _ :: _, [] => None
  end.

(** The parser's outcome: a value and the text left, a syntax error, or the
    recursion budget spent ([JSON_parse_budget] shows the budget of
    [JSON_parse] is never spent). *)
Inductive outcome (A : Type) : Type :=
| Done (a : A)
| Fail
| Starved.
Arguments Done {A} a.
Arguments Fail {A}.
Arguments Starved {A}.

Definition literal (name : string) (v : value) (s : jsstring)
  : option (value * jsstring) :=
  match stripPrefix (str name) s with
  | Some rest => Some (v, rest)
  | None => None
  end.

Definition ofOption {A : Type} (o : option A) : outcome A :=
  match o with
  | Some a => Done a
  | None => Fail
  end.

(** A value that is not an array or an object, beginning at [c]. *)
Definition parseScalar (c : char16) (rest : jsstring)
  : option (value * jsstring) :=
  if (c =? 34)%N then
    match stringChars rest with
    | Some (chars, rest') => Some (Str chars, rest')
    | None => None
    end
  else if ((c =? 45) || isDigit c)%N then
    match parseNumber (c :: rest) with
    | Some (q, rest') => Some (Num q, rest')
    | None => None
    end
  else if (c =? 116)%N then literal "true" (Bool true) (c :: rest)
  else if (c =? 102)%N then literal "false" (Bool false) (c :: rest)
  else if (c =? 110)%N then literal "null" Null (c :: rest)
  else None.

Fixpoint parseValue (fuel : nat) (s : jsstring) {struct fuel}
  : outcome (value * jsstring) :=
  match fuel with
  | O => Starved
  | S fuel' =>
      match skipWhiteSpace s with
      | [] => Fail
      | c :: rest =>
          if (c =? 91)%N then
            match skipWhiteSpace rest with
            | [] => Fail
            | c' :: rest' =>
                if (c' =? 93)%N then Done (Arr [], rest')
                else
                  match parseElements fuel' rest with
                  | Done (vs, rest'') => Done (Arr vs, rest'')
                  | Fail => Fail
                  | Starved => Starved
                  end
            end
          else if (c =? 123)%N then
            match skipWhiteSpace rest with
            | [] => Fail
            | c' :: rest' =>
                if (c' =? 125)%N then Done (Obj [], rest')
                else
                  match parseMembers fuel' rest with
                  | Done (ms, rest'') =>
                      Done (Obj (fold_left
                                   (fun props m => defineProperty props (fst m) (snd m))
                                   ms []), rest'')
                  | Fail => Fail
                  | Starved => Starved
                  end
            end
          else ofOption (parseScalar c rest)
      end
  end

(** The elements of an array after its opening bracket, up to the closing
    bracket. *)
with parseElements (fuel : nat) (s : jsstring) {struct fuel}
  : outcome (list value * jsstring) :=
  match fuel with
  | O => Starved
  | S fuel' =>
      match parseValue fuel' s with
      | Done (v, rest) =>
          match skipWhiteSpace rest with
          | [] => Fail
          | c :: rest' =>
              if (c =? 93)%N then Done ([v], rest')
              else if (c =? 44)%N then
                match parseElements fuel' rest' with
                | Done (vs, rest'') => Done (v :: vs, rest'')
                | Fail => Fail
                | Starved => Starved
                end
              else Fail
          end
      | Fail => Fail
      | Starved => Starved
      end
  end

(** The members of an object after its opening brace, up to the closing
    brace, in the order of the text. *)
with parseMembers (fuel : nat) (s : jsstring) {struct fuel}
  : outcome (list (jsstring * value) * jsstring) :=
  match fuel with
  | O => Starved
  | S fuel' =>
      match skipWhiteSpace s with
      | [] => Fail
      | q :: afterQuote =>
          if (q =? 34)%N then
            match stringChars afterQuote with
            | None => Fail
            | Some (name, afterName) =>
                match skipWhiteSpace afterName with
                | [] => Fail
                | colon :: afterColon =>
                    if (colon =? 58)%N then
                      match parseValue fuel' afterColon with
                      | Done (v, rest) =>
                          match skipWhiteSpace rest with
                          | [] => Fail
                          | c :: rest' =>
                              if (c =? 125)%N then Done ([(name, v)], rest')
                              else if (c =? 44)%N then
                                match parseMembers fuel' rest' with
                                | Done (ms, rest'') => Done ((name, v) :: ms, rest'')
                                | Fail => Fail
                                | Starved => Starved
                                end
                              else Fail
                          end
                      | Fail => Fail
                      | Starved => Starved
                      end
                    else Fail
                end
            end
          else Fail
      end
  end.

(** [JSON.parse(text)]: the value of the text, or a SyntaxError. *)
Definition JSON_parse (text : jsstring) : completion value :=
  match parseValue (2 * length text + 1) text with
  | Done (v, rest) =>
      match skipWhiteSpace rest with
      | [] => Normal v
      | _ :: _ => Throw SyntaxError
      end
  | Fail | Starved => Throw SyntaxError
  end.

End JS.

(** ** types.ts *)

Inductive Status : Type := added | modified | deleted | renamed.

(** The string a status tag is. *)
Definition statusText (s : Status) : JS.jsstring :=
  match s with
  | added => JS.str "added"
  | modified => JS.str "modified"
  | deleted => JS.str "deleted"
  | renamed => JS.str "renamed"
  end.

Record GitDiff (number : Type) : Type := {
  file : JS.jsstring;
  additions : number;
  deletions : number;
  changes : list JS.jsstring;
  status : Status
}.
Arguments file {number} _.
Arguments additions {number} _.
Arguments deletions {number} _.
Arguments changes {number} _.
Arguments status {number} _.

(** The interface declares [message] and [reasoning] strings and [confidence]
    a number; the parser fills them from [any]-typed properties, so at run
    time they hold whatever value the response carried. *)
Record CommitSuggestion : Type := {
  message : JS.value;
  confidence : JS.value;
  reasoning : JS.value
}.

Record Config (number : Type) : Type := {
  geminiApiKey : JS.jsstring;
  conventionalCommits : bool;
  maxLength : number;
  includeBody : bool;
  customPrompt : option JS.jsstring
}.
Arguments geminiApiKey {number} _.
Arguments conventionalCommits {number} _.
Arguments maxLength {number} _.
Arguments includeBody {number} _.
Arguments customPrompt {number} _.

(** ** gemini-client.ts *)

Module GeminiClient.
Import JS.

(** The state of a client: the API handle made from the key, and the model
    handle obtained from it under a model name. *)
Record GoogleGenerativeAI : Type := { apiKey : jsstring }.
Record GenerativeModel : Type := { modelName : jsstring }.
Record t : Type := { genAI : GoogleGenerativeAI; model : GenerativeModel }.

Definition constructor (key : jsstring) : t :=
  {| genAI := {| apiKey := key |};
     model := {| modelName := str "gemini-pro" |} |}.

Section Prompt.

(** The numbers of a diff and of a configuration are only printed; the
    conversion of a number to a string, as a template literal does it, is
    left to the runtime. *)
Context {number : Type} (Number_toString : number -> jsstring).

(** The callback of [diffs.map]: the description of one file. *)
Definition describeDiff (diff : GitDiff number) : jsstring :=
  let changeType := statusText (status diff) in
  let stats :=
    str "(+" ++ Number_toString (additions diff) ++ str "/-"
      ++ Number_toString (deletions diff) ++ str ")" in
  let changes := join (nl ++ str "  ") (slice0 5 (changes diff)) in
  join nl
    [ str "File: " ++ file diff ++ str " " ++ stats;
      str "Status: " ++ changeType;
      str "Key changes:";
      str "  " ++ changes ].

Definition changesDescription (diffs : list (GitDiff number)) : jsstring :=
  join (nl ++ nl) (map describeDiff diffs).

Definition recentCommitsContext (recentCommits : list jsstring) : jsstring :=
  if (0 <? length recentCommits)%nat then
    str "Recent commits for context:" ++ nl
      ++ join nl (map (fun c => str "- " ++ c) (slice0 5 recentCommits))
      ++ nl ++ nl
  else [].

(** The last line of the template; a missing [customPrompt] reads as
    [undefined], which is falsy like the empty string. *)
Definition additionalInstructions (config : Config number) : jsstring :=
  match customPrompt config with
  | Some text =>
      if toBoolean (Str text) then
        nl ++ str "ADDITIONAL INSTRUCTIONS:" ++ nl ++ text
      else []
  | None => []
  end.

(** [buildPrompt]: the template literal, one element for each of its lines. *)
Definition buildPrompt (this : t) (diffs : list (GitDiff number))
  (config : Config number) (recentCommits : list jsstring)
  (branchName : jsstring) : jsstring :=
  join nl
    [ str "You are an expert developer assistant that generates high-quality git commit messages.";
      [];
      str "CONTEXT:";
      str "Branch: " ++ branchName;
      recentCommitsContext recentCommits;
      [];
      str "CHANGES TO COMMIT:";
      changesDescription diffs;
      [];
      str "REQUIREMENTS:";
      (if conventionalCommits config
       then str "- Use Conventional Commits format (type(scope): description)"
       else str "- Use clear, descriptive commit messages");
      str "- Maximum length: " ++ Number_toString (maxLength config)
        ++ str " characters";
      str "- Be specific about what changed and why";
      str "- Use present tense (" ++ quoted "add" ++ str " not "
        ++ quoted "added" ++ str ")";
      str "- Start with lowercase unless it's a proper noun";
      (if includeBody config
       then str "- Include a body if the change is complex"
       else str "- Keep it concise, no body needed");
      [];
      str "COMMIT TYPES (if using conventional commits):";
      str "- feat: new feature";
      str "- fix: bug fix";
      str "- docs: documentation changes";
      str "- style: formatting, missing semicolons, etc.";
      str "- refactor: code restructuring without changing functionality";
      str "- test: adding or updating tests";
      str "- chore: maintenance tasks, dependencies, build process";
      [];
      str "Generate 3 different commit message suggestions, ranked by quality.";
      str "Format your response as JSON:";
      [];
      str "{";
      str "  " ++ quoted "suggestions" ++ str ": [";
      str "    {";
      str "      " ++ quoted "message" ++ str ": "
        ++ quoted "commit message here" ++ str ",";
      str "      " ++ quoted "confidence" ++ str ": 95,";
      str "      " ++ quoted "reasoning" ++ str ": "
        ++ quoted "why this message is good";
      str "    },";
      str "    {";
      str "      " ++ quoted "message" ++ str ": "
        ++ quoted "alternative message" ++ str ",";
      str "      " ++ quoted "confidence" ++ str ": 85,";
      str "      " ++ quoted "reasoning" ++ str ": "
        ++ quoted "explanation for this option";
      str "    },";
      str "    {";
      str "      " ++ quoted "message" ++ str ": "
        ++ quoted "third option" ++ str ",";
      str "      " ++ quoted "confidence" ++ str ": 75,";
      str "      " ++ quoted "reasoning" ++ str ": "
        ++ quoted "why this could work";
      str "    }";
      str "  ]";
      str "}";
      [];
      additionalInstructions config ].

End Prompt.

(** The callback of [parsed.suggestions.map]. *)
Definition toSuggestion (suggestion : value) : completion CommitSuggestion :=
  m <- get suggestion (str "message") ;;
  c <- get suggestion (str "confidence") ;;
  r <- get suggestion (str "reasoning") ;;
  Normal {| message := or_else m (Str []);
            confidence := or_else c (Num 50);
            reasoning := or_else r (Str (str "No reasoning provided")) |}.

(** The text handed to [JSON.parse]. *)
Definition cleanResponse (response : jsstring) : jsstring :=
  trim (replace_optional_newline (replace_optional_newline response)).

(** The body of the [try] block: [Some] list when the block returns, [None]
    when control leaves it at its end.  ([parsed.suggestions] is read once
    here; the source reads it again for [Array.isArray] and for [map], with
    the same result.) *)
Definition structured (response : jsstring)
  : completion (option (list CommitSuggestion)) :=
  parsed <- JSON_parse (cleanResponse response) ;;
  suggestions <- get parsed (str "suggestions") ;;
  if toBoolean suggestions && isArray suggestions then
    match suggestions with
    | Arr elements =>
        l <- Array_map toSuggestion elements ;;
        Normal (Some l)
    | _ => Normal None
    end
  else Normal None.

Definition extracted (line : jsstring) : CommitSuggestion :=
  {| message := Str (trim line);
     confidence := Num 70;
     reasoning := Str (str "Extracted from AI response") |}.

(** The test of the [for] loop on a line. *)
Definition looksLikeMessage (line : jsstring) : bool :=
  includes 58%N line && negb (startsWith 123%N line)
    && negb (startsWith 125%N line).

(** The code after the [try] statement. *)
Definition fallback (response : jsstring) : list CommitSuggestion :=
  let lines :=
    filter (fun line => toBoolean (Str (trim line))) (split 10%N response) in
  let suggestions :=
    fold_left
      (fun suggestions line =>
         if looksLikeMessage line then suggestions ++ [extracted line]
         else suggestions)
      lines [] in
  slice0 3 suggestions.

(** [parseResponse]; the [catch] clause writes a warning to the console and
    goes on to the code after the [try] statement. *)
Definition parseResponse (this : t) (response : jsstring)
  : completion (list CommitSuggestion) :=
  returned <- try_catch (structured response) (fun _ => Normal None) ;;
  match returned with
  | Some suggestions => Normal suggestions
  | None => Normal (fallback response)
  end.

End GeminiClient.

(** ** Vocabulary of the properties *)

Section Vocabulary.
Import JS GeminiClient.

(** The [try] block ends without returning, by falling through or by a
    throw: the response is handled by the fallback. *)
Definition fallsBack (response : jsstring) : bool :=
  match structured response with
  | Normal (Some _) => false
  | Normal None | Throw _ => true
  end.

(** The non-blank lines of the response, in order. *)
Definition nonBlankLines (response : jsstring) : list jsstring :=
  filter (fun line => toBoolean (Str (trim line))) (split 10%N response).

(** The own property [name] of a record, when it has one. *)
Fixpoint findProperty (props : list (jsstring * value)) (name : jsstring)
  : option value :=
  match props with
  | [] => None
  | (k, v) :: rest =>
      if eqb_string k name then Some v else findProperty rest name
  end.

(** What [toSuggestion] makes of a record with properties [props]. *)
Definition suggestionOf (props : list (jsstring * value)) : CommitSuggestion :=
  {| message := or_else (getOwnProperty props (str "message")) (Str []);
     confidence := or_else (getOwnProperty props (str "confidence")) (Num 50);
     reasoning := or_else (getOwnProperty props (str "reasoning"))
                    (Str (str "No reasoning provided")) |}.

(** A field with a default for the missing case only. *)
Definition presentOr (props : list (jsstring * value)) (name : jsstring)
  (default : value) : value :=
  match findProperty props name with
  | Some v => v
  | None => default
  end.

(** The mapping of a record in the words of the specification: each field
    is the record's, and a default stands in for a missing one. *)
Definition specifiedSuggestion (props : list (jsstring * value))
  : CommitSuggestion :=
  {| message := presentOr props (str "message") (Str []);
     confidence := presentOr props (str "confidence") (Num 50);
     reasoning := presentOr props (str "reasoning")
                    (Str (str "No reasoning provided")) |}.

(** A field with a default for the missing case and for a falsy value
    ([null], [false], zero, the empty string). *)
Definition truthyOr (props : list (jsstring * value)) (name : jsstring)
  (default : value) : value :=
  match findProperty props name with
  | Some v => if toBoolean v then v else default
  | None => default
  end.

Definition defaultedSuggestion (props : list (jsstring * value))
  : CommitSuggestion :=
  {| message := truthyOr props (str "message") (Str []);
     confidence := truthyOr props (str "confidence") (Num 50);
     reasoning := truthyOr props (str "reasoning")
                    (Str (str "No reasoning provided")) |}.

(** All the suggestions the fallback finds, before its final [slice]. *)
Definition extractedLines (response : jsstring) : list CommitSuggestion :=
  map extracted (filter looksLikeMessage (nonBlankLines response)).


(** A rationale that is a text and not the empty one. *)
Definition nonEmptyRationale (s : CommitSuggestion) : Prop :=
  exists r, reasoning s = Str r /\ r <> [].


(** The same for the reasoning. *)
Definition carriesReasoning (element : value) (s : CommitSuggestion) : Prop :=
  match element with
  | Obj record =>
      reasoning s
      = truthyOr record (str "reasoning") (Str (str "No reasoning provided"))
  | _ => reasoning s = Str (str "No reasoning provided")
  end.

(** The first code unit of a text, if any, passes [p]. *)
Definition firstIs (p : char16 -> bool) (X : jsstring) : bool :=
  match X with
  | [] => false
  | c :: _ => p c
  end.

Definition isPoint (c : char16) : bool := (c =? 46)%N.
Definition isExponentMark (c : char16) : bool := ((c =? 101) || (c =? 69))%N.

(** A text that cannot continue a number literal standing before it. *)
Definition numberEnds (X : jsstring) : bool :=
  negb (firstIs isDigit X) && negb (firstIs isPoint X)
    && negb (firstIs isExponentMark X).

(** The code units number literals are made of. *)
Definition numberChar (c : char16) : bool :=
  (isDigit c || (c =? 46) || (c =? 101) || (c =? 69) || (c =? 43) || (c =? 45))%N.

Definition noLineFeed (body : jsstring) : Prop :=
  Forall (fun c => c <> 10%N) body.

(** The last code unit of a text is not white space. *)
Definition endsWithToken (body : jsstring) : Prop :=
  exists b c, body = b ++ [c] /\ isWhiteSpace c = false.

(** [hay] holds [needle] as a contiguous part. *)
Definition contains (hay needle : jsstring) : Prop :=
  exists before after, hay = before ++ needle ++ after.

Fixpoint beginsWith (needle s : jsstring) : bool :=
  match needle, s with
  | [], _ => true
  | x :: needle', y :: s' => (x =? y)%N && beginsWith needle' s'
  | _ :: _, [] => false
  end.

(** [hay.includes(needle)] *)
Fixpoint includesText (needle hay : jsstring) : bool :=
  beginsWith needle hay ||
  match hay with
  | [] => false
  | _ :: rest => includesText needle rest
  end.

(** A diff with its change lines cut down to the first [n]. *)
Definition keepChanges {number : Type} (n : nat) (diff : GitDiff number)
  : GitDiff number :=
  {| file := file diff;
     additions := additions diff;
     deletions := deletions diff;
     changes := firstn n (changes diff);
     status := status diff |}.

(** Number::toString on a count small enough to be a double exactly and to
    print without an exponent: its decimal digits. *)
Definition decimal (n : N) : jsstring :=
  str (NilZero.string_of_uint (N.to_uint n)).

(** Sample data. *)
Definition client : GeminiClient.t := constructor (str "key").

Definition fixBugResponse : jsstring :=
  str "{" ++ quoted "suggestions" ++ str ":[{" ++ quoted "message" ++ str ":"
    ++ quoted "fix bug" ++ str "," ++ quoted "confidence" ++ str ":90,"
    ++ quoted "reasoning" ++ str ":" ++ quoted "why" ++ str "}]}".

Definition messageOnlyResponse : jsstring :=
  str "{" ++ quoted "suggestions" ++ str ":[{" ++ quoted "message" ++ str ":"
    ++ quoted "x" ++ str "}]}".

Definition zeroConfidenceResponse : jsstring :=
  str "{" ++ quoted "suggestions" ++ str ":[{" ++ quoted "message" ++ str ":"
    ++ quoted "x" ++ str "," ++ quoted "confidence" ++ str ":0}]}".


Definition emptyArrayReasoningResponse : jsstring :=
  str "{" ++ quoted "suggestions" ++ str ":[{" ++ quoted "message" ++ str ":"
    ++ quoted "m" ++ str "," ++ quoted "reasoning" ++ str ":[]}]}".

Definition fourRecordsResponse : jsstring :=
  str "{" ++ quoted "suggestions" ++ str ":[{},{},{},{}]}".

Definition fencedResponse : jsstring :=
  str "```json" ++ nl ++ messageOnlyResponse ++ nl ++ str "```".

(** A payload laid out as the prompt asks for it, bare and fenced. *)
Definition layoutResponse : jsstring :=
  join nl
    [ str "{";
      str "  " ++ quoted "suggestions" ++ str ": [";
      str "    {";
      str "      " ++ quoted "message" ++ str ": " ++ quoted "fix: typo"
        ++ str ",";
      str "      " ++ quoted "confidence" ++ str ": 95,";
      str "      " ++ quoted "reasoning" ++ str ": " ++ quoted "short";
      str "    }";
      str "  ]";
      str "}" ].

Definition fencedLayoutResponse : jsstring :=
  str "```json" ++ nl ++ layoutResponse ++ nl ++ str "```".

Definition proseResponse : jsstring :=
  str "not json at all" ++ nl ++ str "feat: add login" ++ nl
    ++ str "random line without colon".

Definition fourLinesResponse : jsstring :=
  str "feat: a" ++ nl ++ str "fix: b" ++ nl ++ str "docs: c" ++ nl
    ++ str "test: d".

Definition suggestion (m : string) (c : Z) (r : string) : CommitSuggestion :=
  {| message := Str (str m);
     confidence := Num (inject_Z c);
     reasoning := Str (str r) |}.

Definition sampleDiff : GitDiff N :=
  {| file := str "src/a.ts";
     additions := 7%N;
     deletions := 2%N;
     changes := map str ["Added: 1"; "Added: 2"; "Removed: 3"; "Added: 4";
                         "Added: 5"; "Added: 6"; "Removed: 7"]%string;
     status := modified |}.

Definition sampleConfig : Config N :=
  {| geminiApiKey := str "key";
     conventionalCommits := true;
     maxLength := 72%N;
     includeBody := false;
     customPrompt := None |}.

Definition sevenCommits : list jsstring :=
  map str ["c1"; "c2"; "c3"; "c4"; "c5"; "c6"; "c7"]%string.

End Vocabulary.

(** ** Calls that may fail

    The git library, the file system and the language model are reached
    through calls that return or throw; an [await] is read as the call it
    waits for.  What is thrown is a value of the library called, or an
    [Error] made with [new Error(message)]. *)

Module Effect.
Import JS.

Inductive thrown (E : Type) : Type :=
| Foreign (e : E)
| Error (message : jsstring).
Arguments Foreign {E} e.
Arguments Error {E} message.

Inductive result (E A : Type) : Type :=
| Returns (a : A)
| Throws (e : thrown E).
Arguments Returns {E A} a.
Arguments Throws {E A} e.

Definition andThen {E A B : Type} (c : result E A) (k : A -> result E B)
  : result E B :=
  match c with
  | Returns a => k a
  | Throws e => Throws e
  end.

Notation "x <~ c ;; k" := (andThen c (fun x => k))
  (at level 61, c at next level, right associativity).

(** [try { body } catch (error) { handler }] *)
Definition catch {E A : Type} (body : result E A)
  (handler : thrown E -> result E A) : result E A :=
  match body with
  | Returns a => Returns a
  | Throws e => handler e
  end.

(** The string a thrown value turns into inside a template literal: for an
    [Error], its name and its message (Error.prototype.toString). *)
Definition describe {E : Type} (String_of : E -> jsstring) (e : thrown E)
  : jsstring :=
  match e with
  | Foreign x => String_of x
  | Error [] => str "Error"
  | Error message => str "Error: " ++ message
  end.

End Effect.

(** ** The git library, as far as the analyzer uses it *)

(** The part of the status of the work tree the analyzer reads. *)
Module StatusResult.

Record Rename : Type := { from : JS.jsstring; to : JS.jsstring }.

Record t : Type := {
  staged : list JS.jsstring;
  created : list JS.jsstring;
  modified : list JS.jsstring;
  deleted : list JS.jsstring;
  renamed : list Rename
}.

End StatusResult.

(** One file of a diff summary: a text file has its counts of inserted and
    deleted lines, a binary file has neither. *)
Module DiffResultFile.

Record t (number : Type) : Type := {
  file : JS.jsstring;
  insertions : option number;
  deletions : option number
}.
Arguments file {number} _.
Arguments insertions {number} _.
Arguments deletions {number} _.

End DiffResultFile.

(** The calls the analyzer makes.  A call is taken to answer the same on the
    same arguments while one analysis runs. *)
Module SimpleGit.

Record t (E number : Type) : Type := {
  checkIsRepo : Effect.result E bool;
  status : Effect.result E StatusResult.t;
  diff : JS.jsstring -> Effect.result E JS.jsstring;
  diffSummary :
    JS.jsstring -> Effect.result E (list (DiffResultFile.t number));
  log : number -> Effect.result E (list JS.jsstring);
  revparse : Effect.result E JS.jsstring
}.
Arguments checkIsRepo {E number} _.
Arguments status {E number} _.
Arguments diff {E number} _ _.
Arguments diffSummary {E number} _ _.
Arguments log {E number} _ _.
Arguments revparse {E number} _.

End SimpleGit.

(** ** git-analyzer.ts *)

Module GitAnalyzer.
Import JS Effect.

(** [line.substring(1)] *)
Definition substring1 (line : jsstring) : jsstring := tl line.

(** [parseDiffChanges] *)
Definition parseDiffChanges (diff : jsstring) : list jsstring :=
  let lines := split 10%N diff in
  let changes :=
    fold_left
      (fun changes line =>
         if startsWith 43%N line && negb (beginsWith (str "+++") line) then
           changes ++ [str "Added: " ++ trim (substring1 line)]
         else if startsWith 45%N line && negb (beginsWith (str "---") line)
         then changes ++ [str "Removed: " ++ trim (substring1 line)]
         else changes)
      lines [] in
  slice0 10 changes.

(** [a.includes(file)] on an array of strings. *)
Definition Array_includes (a : list jsstring) (file : jsstring) : bool :=
  existsb (fun x => eqb_string x file) a.

(** [getFileStatus] *)
Definition getFileStatus (file : jsstring) (status : StatusResult.t) : Status :=
  if Array_includes (StatusResult.created status) file then added
  else if Array_includes (StatusResult.deleted status) file then deleted
  else if existsb (fun r => eqb_string (StatusResult.to r) file)
            (StatusResult.renamed status)
  then renamed
  else modified.

(** The files [getStagedChanges] goes through: [staged], then [created],
    then the modified files that are staged. *)
Definition stagedFiles (status : StatusResult.t) : list jsstring :=
  StatusResult.staged status ++ StatusResult.created status
    ++ filter (fun file => Array_includes (StatusResult.staged status) file)
         (StatusResult.modified status).

Section Analyzer.

(** What the git library throws, and the numbers of its summaries with the
    literal 0. *)
Context {E number : Type} (zero : number) (String_of : E -> jsstring).

(** [files.find(f => f.file === file)] *)
Definition findFile (files : list (DiffResultFile.t number)) (file : jsstring)
  : option (DiffResultFile.t number) :=
  find (fun f => eqb_string (DiffResultFile.file f) file) files.

(** The count of a summary entry, or 0 where the entry or the count is
    missing. *)
Definition countOr0 (fileSummary : option (DiffResultFile.t number))
  (count : DiffResultFile.t number -> option number) : number :=
  match fileSummary with
  | Some f => match count f with Some n => n | None => zero end
  | None => zero
  end.

(** The body of the inner [try]: the diff record of one file. *)
Definition analyzeFile (git : SimpleGit.t E number) (st : StatusResult.t)
  (name : jsstring) : result E (GitDiff number) :=
  diffText <~ SimpleGit.diff git name ;;
  summary <~ SimpleGit.diffSummary git name ;;
  let fileSummary := findFile summary name in
  Returns {| file := name;
             additions := countOr0 fileSummary DiffResultFile.insertions;
             deletions := countOr0 fileSummary DiffResultFile.deletions;
             changes := parseDiffChanges diffText;
             status := getFileStatus name st |}.

(** The [for] loop: a file whose analysis throws is left out (and a warning
    written to the console). *)
Definition analyzeFiles (git : SimpleGit.t E number) (st : StatusResult.t)
  (files : list jsstring) : list (GitDiff number) :=
  fold_left
    (fun diffs name =>
       match analyzeFile git st name with
       | Returns d => diffs ++ [d]
       | Throws _ => diffs
       end)
    files [].

(** [getStagedChanges] *)
Definition getStagedChanges (git : SimpleGit.t E number)
  : result E (list (GitDiff number)) :=
  catch
    (isRepo <~ SimpleGit.checkIsRepo git ;;
     if negb isRepo then Throws (Error (str "Not a git repository"))
     else
       st <~ SimpleGit.status git ;;
       let files := stagedFiles st in
       if (length files =? 0)%nat then
         Throws (Error (str "No staged changes found. Use " ++ quoted "git add"
                          ++ str " to stage your changes first."))
       else Returns (analyzeFiles git st files))
    (fun error =>
       Throws (Error (str "Git analysis failed: " ++ describe String_of error))).

(** [getRecentCommits]; the log is taken as the messages of its commits. *)
Definition getRecentCommits (git : SimpleGit.t E number) (count : number)
  : result E (list jsstring) :=
  catch (messages <~ SimpleGit.log git count ;; Returns messages)
    (fun _ => Returns []).

(** [getBranchName] *)
Definition getBranchName (git : SimpleGit.t E number) : result E jsstring :=
  catch (branch <~ SimpleGit.revparse git ;; Returns (trim branch))
    (fun _ => Returns (str "main")).

End Analyzer.

End GitAnalyzer.

(** ** gemini-client.ts: the call to the model *)

Module GeminiCall.
Import JS Effect GeminiClient.

Section Call.

Context {E number : Type} (Number_toString : number -> jsstring)
  (String_of : E -> jsstring).

(** [model.generateContent(prompt)], its [response] and the [text()] of it:
    the text the model answers with, or what one of the three throws. *)
Variable generateContent : GenerativeModel -> jsstring -> result E jsstring.

(** A throw of [parseResponse] inside the [try], as the thrown value it is
    for the [catch]. *)
Variable ofExn : exn -> E.

Definition liftCompletion {A : Type} (c : completion A) : result E A :=
  match c with
  | Normal a => Returns a
  | Throw e => Throws (Foreign (ofExn e))
  end.

(** [generateCommitMessage] *)
Definition generateCommitMessage (this : GeminiClient.t)
  (diffs : list (GitDiff number)) (config : Config number)
  (recentCommits : list jsstring) (branchName : jsstring)
  : result E (list CommitSuggestion) :=
  let prompt :=
    buildPrompt Number_toString this diffs config recentCommits branchName in
  catch
    (text <~ generateContent (model this) prompt ;;
     liftCompletion (parseResponse this text))
    (fun error =>
       Throws (Error (str "Gemini API error: " ++ describe String_of error))).

End Call.

End GeminiCall.

(** ** config-manager.ts *)

Module ConfigManager.
Import JS Effect.

(** The two paths the constructor makes, in the working directory and in the
    home directory. *)
Record t : Type := { configPath : jsstring; globalConfigPath : jsstring }.

(** The own enumerable properties an object spread copies from a value: the
    properties of an object, the elements of an array and the code units of
    a string under their indices, nothing of the other values.  A spread
    object is read through [getOwnProperty] only; the order of its keys is
    not followed here. *)
Fixpoint indexed (i : N) (vs : list value) : list (jsstring * value) :=
  match vs with
  | [] => []
  | v :: rest => (decimal i, v) :: indexed (i + 1) rest
  end.

Definition ownEnumerable (v : value) : list (jsstring * value) :=
  match v with
  | Obj props => props
  | Arr elements => indexed 0 elements
  | Str s => indexed 0 (map (fun c => Str [c]) s)
  | Undefined | Null | Bool _ | Num _ => []
  end.

(** [{...target, ...source}] on the properties of [target]. *)
Definition spread (target : list (jsstring * value)) (source : value)
  : list (jsstring * value) :=
  fold_left (fun props p => defineProperty props (fst p) (snd p))
    (ownEnumerable source) target.

(** An optional string, as the value it reads as. *)
Definition optionalString (s : option jsstring) : value :=
  match s with
  | Some text => Str text
  | None => Undefined
  end.

Section Files.

(** The file system and the environment: [fs.readFile(path, 'utf-8')],
    [fs.writeFile(path, text)], [process.env.GEMINI_API_KEY], and
    [JSON.stringify(value, null, 2)]. *)
Context {E : Type}
  (readFile : jsstring -> result E jsstring)
  (writeFile : jsstring -> jsstring -> result E unit)
  (GEMINI_API_KEY : option jsstring)
  (JSON_stringify : value -> jsstring)
  (String_of : E -> jsstring)
  (ofExn : exn -> E).

Definition ofCompletion {A : Type} (c : completion A) : result E A :=
  match c with
  | Normal a => Returns a
  | Throw e => Throws (Foreign (ofExn e))
  end.

(** [loadConfigFile]: the value of the file, or [null]. *)
Definition loadConfigFile (filePath : jsstring) : result E value :=
  catch
    (content <~ readFile filePath ;;
     ofCompletion (JSON_parse content))
    (fun _ => Returns Null).

Definition defaultConfig : list (jsstring * value) :=
  [ (str "geminiApiKey", or_else (optionalString GEMINI_API_KEY) (Str []));
    (str "conventionalCommits", Bool true);
    (str "maxLength", Num 72);
    (str "includeBody", Bool false) ].

(** [loadConfig] *)
Definition loadConfig (this : t) : result E value :=
  returned <~
    catch
      (localConfig <~ loadConfigFile (configPath this) ;;
       if toBoolean localConfig then
         Returns (Some (Obj (spread defaultConfig localConfig)))
       else
         globalConfig <~ loadConfigFile (globalConfigPath this) ;;
         if toBoolean globalConfig then
           Returns (Some (Obj (spread defaultConfig globalConfig)))
         else Returns None)
      (fun _ => Returns None) ;;
  match returned with
  | Some config => Returns config
  | None => Returns (Obj defaultConfig)
  end.

(** The object [saveConfig] writes: the update spread over what the file
    held, or over the empty object where the file held nothing truthy. *)
Definition newConfig (existing config : value) : list (jsstring * value) :=
  spread (spread [] (or_else existing (Obj []))) config.

(** [saveConfig] *)
Definition saveConfig (this : t) (config : value) (global : bool)
  : result E unit :=
  let path := if global then globalConfigPath this else configPath this in
  catch
    (existing <~ loadConfigFile path ;;
     writeFile path (JSON_stringify (Obj (newConfig existing config))))
    (fun error =>
       Throws (Error (str "Failed to save config: "
                        ++ describe String_of error))).

End Files.

End ConfigManager.

(** ** cli.ts *)

Module Cli.
Import JS.

(** [selectedMessage.replace] with the global pattern of the double quote:
    each double quote becomes two double quotes on win32, and a backslash
    and a double quote elsewhere. *)
Definition escapedMessage (win32 : bool) (selectedMessage : jsstring)
  : jsstring :=
  flat_map
    (fun c =>
       if (c =? 34)%N then
         if win32 then dquote ++ dquote else 92%N :: dquote
       else [c])
    selectedMessage.

Definition commitCommand (win32 : bool) (selectedMessage : jsstring)
  : jsstring :=
  str "git commit -m " ++ dquote ++ escapedMessage win32 selectedMessage
    ++ dquote.

(** What the [config] action makes of the argument of [--set], when
    [--list] is not given: the branch is not taken and the action goes on to
    [initConfig], or the message about the format and exit 1, or the update
    handed to [saveConfig]. *)
Inductive setOption : Type :=
| NotSet
| InvalidFormat
| Update (configUpdate : list (jsstring * value)).

Section SetOption.

(** [value.toLowerCase()] and [parseInt(value, 10)] of the runtime. *)
Context (String_toLowerCase : jsstring -> jsstring)
  (parseInt10 : jsstring -> value).

(** [configUpdate[key] = v] on the empty object, for a [v] that is not an
    object: the name [__proto__] reaches the setter of the prototype, which
    leaves the object without the property. *)
Definition assign (key : jsstring) (v : value) : list (jsstring * value) :=
  if eqb_string key (str "__proto__") then [] else [(key, v)].

(** [if (options.set) { ... }] on the argument given to [--set]: the empty
    argument is falsy and skips the branch, as the option left out does. *)
Definition parseSet (set : jsstring) : setOption :=
  if toBoolean (Str set) then
    match split 61%N set with
    | [] => InvalidFormat
    | key :: rest =>
        match rest with
        | [] => InvalidFormat
        | value :: _ =>
            if negb (toBoolean (Str key)) then InvalidFormat
            else if eqb_string key (str "conventionalCommits")
                    || eqb_string key (str "includeBody")
            then Update (assign key
                           (Bool (eqb_string (String_toLowerCase value)
                                    (str "true"))))
            else if eqb_string key (str "maxLength")
            then Update (assign key (parseInt10 value))
            else Update (assign key (Str value))
        end
    end
  else NotSet.

End SetOption.

End Cli.

(** ** The script that puts the shebang line on the built cli.js *)

Module FixCli.
Import JS.

Definition shebang : jsstring := str "#!/usr/bin/env node".

(** The content written back, when the script writes. *)
Definition fixed (content : jsstring) : option jsstring :=
  if negb (beginsWith shebang content) then Some (shebang ++ nl ++ content)
  else None.

(** The content of the file after the script. *)
Definition after (content : jsstring) : jsstring :=
  match fixed content with
  | Some content' => content'
  | None => content
  end.

End FixCli.

(** ** Vocabulary of the further properties *)

Section FurtherVocabulary.
Import JS.

(** A text without white space at either end. *)
Definition trimmed (s : jsstring) : Prop :=
  s = [] \/ (firstIs isWhiteSpace s = false /\ endsWithToken s).

(** [l] is [m] with some of its elements left out. *)
Inductive subsequence {A : Type} : list A -> list A -> Prop :=
| subsequence_nil : subsequence [] []
| subsequence_skip x l m : subsequence l m -> subsequence l (x :: m)
| subsequence_keep x l m : subsequence l m -> subsequence (x :: l) (x :: m).

(** The last value a list of properties gives a name. *)
Definition lastProperty (props : list (jsstring * value)) (name : jsstring)
  : option value :=
  findProperty (rev props) name.

(** What the map callback of [parseResponse] makes of an element that is not
    [null]: a record gives its fields or the defaults, any other value the
    defaults. *)
Definition suggestionOfElement (element : value) : CommitSuggestion :=
  match element with
  | Obj props => defaultedSuggestion props
  | _ => defaultedSuggestion []
  end.

(** A value without [undefined] in it. *)
Fixpoint defined (v : value) : bool :=
  match v with
  | Undefined => false
  | Null | Bool _ | Num _ | Str _ => true
  | Arr elements => forallb defined elements
  | Obj props => forallb (fun p => defined (snd p)) props
  end.

Definition nullElementResponse : jsstring :=
  str "{" ++ quoted "suggestions" ++ str ":[{" ++ quoted "message"
    ++ str ":" ++ quoted "x" ++ str "},null]}".

(** The entry of [parseDiffChanges] for a line, if it has one. *)
Definition changeOfLine (line : jsstring) : list jsstring :=
  if startsWith 43%N line && negb (beginsWith (str "+++") line) then
    [str "Added: " ++ trim (tl line)]
  else if startsWith 45%N line && negb (beginsWith (str "---") line) then
    [str "Removed: " ++ trim (tl line)]
  else [].

(** The two calls the analyzer makes for a file both return. *)
Definition analysable {E number : Type} (git : SimpleGit.t E number)
  (name : jsstring) : bool :=
  match SimpleGit.diff git name, SimpleGit.diffSummary git name with
  | Effect.Returns _, Effect.Returns _ => true
  | _, _ => false
  end.

(** The number of the records of a file among the diffs. *)
Definition recordsOf {number : Type} (name : jsstring)
  (diffs : list (GitDiff number)) : nat :=
  length (filter (fun d => eqb_string (file d) name) diffs).

(** What a configuration file reads as: its JSON value, or [null] where it
    cannot be read or is not JSON. *)
Definition fileValue {E : Type}
  (readFile : jsstring -> Effect.result E jsstring) (path : jsstring)
  : value :=
  match readFile path with
  | Effect.Returns content =>
      match JSON_parse content with
      | Normal v => v
      | Throw _ => Null
      end
  | Effect.Throws _ => Null
  end.

(** A property of the value an object spread copies from, or of the object
    spread over. *)
Definition overriding (source : value) (name : jsstring) (otherwise : value)
  : value :=
  match lastProperty (ConfigManager.ownEnumerable source) name with
  | Some v => v
  | None => otherwise
  end.

(** A work tree: two files staged as modified and as new, a binary file the
    diff of which fails, and a file modified but not staged. *)
Definition sampleStatus : StatusResult.t :=
  {| StatusResult.staged := [str "a.ts"; str "b.ts"; str "c.bin"];
     StatusResult.created := [str "b.ts"];
     StatusResult.modified := [str "a.ts"; str "d.ts"];
     StatusResult.deleted := [];
     StatusResult.renamed := [] |}.

Definition sampleDiffText : jsstring :=
  str "--- a/a.ts" ++ nl ++ str "+++ b/a.ts" ++ nl
    ++ str "@@ -1,2 +1,3 @@" ++ nl ++ str "-old" ++ nl ++ str "+  new "
    ++ nl ++ str "+++i;" ++ nl ++ str " kept".

Definition sampleGit : SimpleGit.t jsstring N :=
  {| SimpleGit.checkIsRepo := Effect.Returns true;
     SimpleGit.status := Effect.Returns sampleStatus;
     SimpleGit.diff := fun name =>
       if eqb_string name (str "c.bin")
       then Effect.Throws (Effect.Foreign (str "fatal"))
       else Effect.Returns sampleDiffText;
     SimpleGit.diffSummary := fun name =>
       Effect.Returns
         [ {| DiffResultFile.file := name;
              DiffResultFile.insertions := Some 2%N;
              DiffResultFile.deletions := Some 1%N |} ];
     SimpleGit.log := fun _ => Effect.Throws (Effect.Foreign (str "fatal"));
     SimpleGit.revparse := Effect.Returns (str "feature/x" ++ nl) |}.

(** A manager and two file systems: both hold the same local file, the
    second one holds a global file too. *)
Definition sampleManager : ConfigManager.t :=
  {| ConfigManager.configPath := str "/work/.git-commit-ai.json";
     ConfigManager.globalConfigPath := str "/home/.git-commit-ai.json" |}.

Definition localOnly (path : jsstring) : Effect.result jsstring jsstring :=
  if eqb_string path (str "/work/.git-commit-ai.json")
  then Effect.Returns (str "{" ++ quoted "maxLength" ++ str ":50}")
  else Effect.Throws (Effect.Foreign (str "ENOENT")).

Definition localAndGlobal (path : jsstring)
  : Effect.result jsstring jsstring :=
  if eqb_string path (str "/home/.git-commit-ai.json")
  then Effect.Returns
         (str "{" ++ quoted "geminiApiKey" ++ str ":" ++ quoted "g" ++ str "}")
  else localOnly path.

End FurtherVocabulary.

(** ** Properties of [JSON_parse] *)

Module JSONFacts.
Import JS GeminiClient.

(** *** What a parse consumes *)

Lemma skipWhiteSpace_length (s : jsstring) :
  length (skipWhiteSpace s) <= length s.
Proof.
  induction s as [|c s IH]; simpl; [lia|].
  destruct (isJSONWhiteSpace c); simpl; lia.
Qed.

Lemma consChar_Some c r chars rest :
  consChar c r = Some (chars, rest) ->
  exists chars', r = Some (chars', rest) /\ chars = c :: chars'.
Proof.
  destruct r as [[chars' rest']|]; simpl; [|discriminate].
  intros H; inversion H; subst; eauto.
Qed.

Lemma stringChars_length (s chars rest : jsstring) :
  stringChars s = Some (chars, rest) -> length rest < length s.
Proof.
  remember (length s) as n eqn:Hn.
  revert s chars rest Hn.
  induction n as [n IH] using lt_wf_ind.
  intros [|c s] chars rest Hn; simpl; [discriminate|].
  simpl in Hn.
  destruct (c =? 34)%N.
  { intros H; inversion H; subst; lia. }
  destruct (c =? 92)%N.
  - destruct s as [|e s1]; [discriminate|].
    destruct (e =? 117)%N.
    + destruct s1 as [|h1 [|h2 [|h3 [|h4 s2]]]]; try discriminate.
      destruct (hex4 h1 h2 h3 h4); [|discriminate].
      intros H. apply consChar_Some in H as (chars' & H & _).
      apply (IH (length s2)) in H; simpl in *; try lia.
    + destruct (escape e); [|discriminate].
      intros H. apply consChar_Some in H as (chars' & H & _).
      apply (IH (length s1)) in H; simpl in *; try lia.
  - destruct (c <? 32)%N; [discriminate|].
    intros H. apply consChar_Some in H as (chars' & H & _).
    apply (IH (length s)) in H; simpl in *; try lia.
Qed.

Lemma digits_length (s : jsstring) :
  length (snd (digits s)) <= length s.
Proof.
  induction s as [|c s IH]; simpl; [lia|].
  destruct (isDigit c); simpl; [|lia].
  destruct (digits s); simpl in *; lia.
Qed.

Lemma intPart_length s ds r :
  intPart s = Some (ds, r) -> length r < length s.
Proof.
  destruct s as [|c s]; simpl; [discriminate|].
  destruct (c =? 48)%N.
  { intros H; inversion H; subst; lia. }
  destruct (isDigit c); [|discriminate].
  pose proof (digits_length s) as Hd.
  destruct (digits s) as [ds' r']; simpl in Hd.
  intros H; inversion H; subst; lia.
Qed.

Lemma fracPart_length s ds r :
  fracPart s = Some (ds, r) -> length r <= length s.
Proof.
  destruct s as [|c s]; simpl.
  { intros H; inversion H; subst; simpl; lia. }
  destruct (c =? 46)%N.
  - pose proof (digits_length s) as Hd.
    destruct (digits s) as [[|d ds'] r']; simpl in Hd; [discriminate|].
    intros H; inversion H; subst; lia.
  - intros H; inversion H; subst; simpl; lia.
Qed.

Lemma exponentDigits_length s e r :
  exponentDigits s = Some (e, r) -> length r <= length s.
Proof.
  unfold exponentDigits.
  pose proof (digits_length s) as Hd.
  destruct (digits s) as [[|d ds] r0]; simpl in Hd; [discriminate|].
  intros H; inversion H; subst; lia.
Qed.

Lemma signedExponent_length s e r :
  signedExponent s = Some (e, r) -> length r <= length s.
Proof.
  destruct s as [|c s0]; simpl; [discriminate|].
  destruct (c =? 45)%N.
  { destruct (exponentDigits s0) as [[e0 r0]|] eqn:He; [|discriminate].
    apply exponentDigits_length in He.
    intros H; inversion H; subst; lia. }
  destruct (c =? 43)%N.
  - intros H. apply exponentDigits_length in H. lia.
  - intros H. apply exponentDigits_length in H. simpl in H. lia.
Qed.

Lemma expPart_length s e r :
  expPart s = Some (e, r) -> length r <= length s.
Proof.
  destruct s as [|c s]; simpl.
  { intros H; inversion H; subst; simpl; lia. }
  destruct ((c =? 101) || (c =? 69))%N.
  - intros H. apply signedExponent_length in H. lia.
  - intros H; inversion H; subst; simpl; lia.
Qed.

Lemma unsignedNumber_length s q r :
  unsignedNumber s = Some (q, r) -> length r < length s.
Proof.
  unfold unsignedNumber.
  destruct (intPart s) as [[ints s2]|] eqn:Hi; [|discriminate].
  apply intPart_length in Hi.
  destruct (fracPart s2) as [[fracs s3]|] eqn:Hf; [|discriminate].
  apply fracPart_length in Hf.
  destruct (expPart s3) as [[e s4]|] eqn:He; [|discriminate].
  apply expPart_length in He.
  intros H; inversion H; subst; lia.
Qed.

Lemma parseNumber_length s q r :
  parseNumber s = Some (q, r) -> length r < length s.
Proof.
  destruct s as [|c s0]; simpl; [discriminate|].
  destruct (c =? 45)%N.
  - destruct (unsignedNumber s0) as [[q0 r0]|] eqn:Hu; [|discriminate].
    apply unsignedNumber_length in Hu.
    intros H; inversion H; subst; lia.
  - intros H. apply unsignedNumber_length in H. simpl in H. lia.
Qed.

Lemma stripPrefix_length p s r :
  stripPrefix p s = Some r -> length r + length p = length s.
Proof.
  revert s; induction p as [|x p IH]; intros [|y s]; simpl;
    try discriminate.
  - intros H; inversion H; subst; simpl; lia.
  - intros H; inversion H; subst; simpl; lia.
  - destruct (x =? y)%N; [|discriminate].
    intros H. apply IH in H. lia.
Qed.

Lemma literal_length name v s w r :
  literal name v s = Some (w, r) ->
  length r + length (str name) = length s.
Proof.
  unfold literal.
  destruct (stripPrefix (str name) s) eqn:Hp; [|discriminate].
  intros H; inversion H; subst. now apply stripPrefix_length.
Qed.

Lemma parseScalar_length c rest v r :
  parseScalar c rest = Some (v, r) -> length r <= length rest.
Proof.
  unfold parseScalar.
  destruct (c =? 34)%N.
  { destruct (stringChars rest) as [[chars rest']|] eqn:Hs; [|discriminate].
    apply stringChars_length in Hs.
    intros H; inversion H; subst; lia. }
  destruct ((c =? 45) || isDigit c)%N.
  { destruct (parseNumber (c :: rest)) as [[q rest']|] eqn:Hn; [|discriminate].
    apply parseNumber_length in Hn. simpl in Hn.
    intros H; inversion H; subst; lia. }
  destruct (c =? 116)%N.
  { intros H. apply literal_length in H. simpl in H. lia. }
  destruct (c =? 102)%N.
  { intros H. apply literal_length in H. simpl in H. lia. }
  destruct (c =? 110)%N.
  { intros H. apply literal_length in H. simpl in H. lia. }
  discriminate.
Qed.

Lemma skipWhiteSpace_cons s c rest :
  skipWhiteSpace s = c :: rest -> length rest < length s.
Proof.
  intros H. pose proof (skipWhiteSpace_length s) as Hl.
  rewrite H in Hl. simpl in Hl. lia.
Qed.

(** The parser on a text with every kind of value, and on texts JSON does
    not allow. *)
Example JSON_parse_sample :
  JSON_parse (str " [1, 2.5, -0, 1e2, 1E-2, true, false, null, "
                ++ quoted "aA\n" ++ str ", {}, [], {" ++ quoted "a"
                ++ str ":1," ++ quoted "b" ++ str ":2," ++ quoted "a"
                ++ str ":3}] ")
  = Normal (Arr [Num 1; Num (5 # 2); Num 0; Num 100; Num (1 # 100);
                 Bool true; Bool false; Null; Str [97; 65; 10]%N;
                 Obj []; Arr [];
                 Obj [(str "a", Num 3); (str "b", Num 2)]]).
Proof. vm_compute. reflexivity. Qed.

Example JSON_parse_refuses :
  map JSON_parse
    [str "[01]"; str "[1,]"; str "{" ++ quoted "a" ++ str ":1,}"; str "1.";
     str "1e"; str "-"; []; str "nul"; str "null x"; dquote ++ str "abc";
     str "+1"; str ".5"; str "{a:1}"; str "'a'"; quoted "\x"]
  = repeat (Throw SyntaxError) 15.
Proof. vm_compute. reflexivity. Qed.

(** Every successful parse consumes at least one code unit. *)
Lemma parse_consumes (fuel : nat) :
  (forall s v r, parseValue fuel s = Done (v, r) -> length r < length s) /\
  (forall s vs r, parseElements fuel s = Done (vs, r) -> length r < length s) /\
  (forall s ms r, parseMembers fuel s = Done (ms, r) -> length r < length s).
Proof.
  induction fuel as [|fuel (IHv & IHe & IHm)].
  { repeat split; intros; discriminate. }
  repeat split.
  - intros s v r. simpl.
    destruct (skipWhiteSpace s) as [|c rest] eqn:Hs; [discriminate|].
    apply skipWhiteSpace_cons in Hs.
    destruct (c =? 91)%N.
    { destruct (skipWhiteSpace rest) as [|c' rest'] eqn:Hs'; [discriminate|].
      apply skipWhiteSpace_cons in Hs'.
      destruct (c' =? 93)%N.
      { intros H; inversion H; subst; lia. }
      destruct (parseElements fuel rest) as [[vs r']| |] eqn:He;
        try discriminate.
      apply IHe in He. intros H; inversion H; subst; lia. }
    destruct (c =? 123)%N.
    { destruct (skipWhiteSpace rest) as [|c' rest'] eqn:Hs'; [discriminate|].
      apply skipWhiteSpace_cons in Hs'.
      destruct (c' =? 125)%N.
      { intros H; inversion H; subst; lia. }
      destruct (parseMembers fuel rest) as [[ms r']| |] eqn:Hm;
        try discriminate.
      apply IHm in Hm. intros H; inversion H; subst; lia. }
    destruct (parseScalar c rest) as [[w r']|] eqn:Hp; [|discriminate].
    apply parseScalar_length in Hp.
    simpl. intros H; inversion H; subst; lia.
  - intros s vs r. simpl.
    destruct (parseValue fuel s) as [[v rest]| |] eqn:Hv; try discriminate.
    apply IHv in Hv.
    destruct (skipWhiteSpace rest) as [|c rest'] eqn:Hs; [discriminate|].
    apply skipWhiteSpace_cons in Hs.
    destruct (c =? 93)%N.
    { intros H; inversion H; subst; lia. }
    destruct (c =? 44)%N; [|discriminate].
    destruct (parseElements fuel rest') as [[vs' r']| |] eqn:He;
      try discriminate.
    apply IHe in He. intros H; inversion H; subst; lia.
  - intros s ms r. simpl.
    destruct (skipWhiteSpace s) as [|q afterQuote] eqn:Hs; [discriminate|].
    apply skipWhiteSpace_cons in Hs.
    destruct (q =? 34)%N; [|discriminate].
    destruct (stringChars afterQuote) as [[name afterName]|] eqn:Hn;
      [|discriminate].
    apply stringChars_length in Hn.
    destruct (skipWhiteSpace afterName) as [|colon afterColon] eqn:Hc;
      [discriminate|].
    apply skipWhiteSpace_cons in Hc.
    destruct (colon =? 58)%N; [|discriminate].
    destruct (parseValue fuel afterColon) as [[v rest]| |] eqn:Hv;
      try discriminate.
    apply IHv in Hv.
    destruct (skipWhiteSpace rest) as [|c rest'] eqn:Hr; [discriminate|].
    apply skipWhiteSpace_cons in Hr.
    destruct (c =? 125)%N.
    { intros H; inversion H; subst; lia. }
    destruct (c =? 44)%N; [|discriminate].
    destruct (parseMembers fuel rest') as [[ms' r']| |] eqn:Hm;
      try discriminate.
    apply IHm in Hm. intros H; inversion H; subst; lia.
Qed.

(** *** The budget

    Two units of budget for each code unit of the text are enough. *)
Lemma parse_budget (fuel : nat) :
  (forall s, 2 * length s + 1 <= fuel -> parseValue fuel s <> Starved) /\
  (forall s, 2 * length s + 2 <= fuel -> parseElements fuel s <> Starved) /\
  (forall s, 2 * length s + 2 <= fuel -> parseMembers fuel s <> Starved).
Proof.
  induction fuel as [|fuel (IHv & IHe & IHm)].
  { repeat split; intros; lia. }
  destruct (parse_consumes fuel) as (Cv & Ce & Cm).
  repeat split.
  - intros s Hf. simpl.
    destruct (skipWhiteSpace s) as [|c rest] eqn:Hs; [discriminate|].
    apply skipWhiteSpace_cons in Hs.
    destruct (c =? 91)%N.
    { destruct (skipWhiteSpace rest) as [|c' rest'] eqn:Hs'; [discriminate|].
      destruct (c' =? 93)%N; [discriminate|].
      specialize (IHe rest).
      destruct (parseElements fuel rest) as [[vs r']| |];
        try discriminate.
      exfalso; apply IHe; [lia|reflexivity]. }
    destruct (c =? 123)%N.
    { destruct (skipWhiteSpace rest) as [|c' rest'] eqn:Hs'; [discriminate|].
      destruct (c' =? 125)%N; [discriminate|].
      specialize (IHm rest).
      destruct (parseMembers fuel rest) as [[ms r']| |];
        try discriminate.
      exfalso; apply IHm; [lia|reflexivity]. }
    destruct (parseScalar c rest) as [[w r']|]; discriminate.
  - intros s Hf. simpl.
    specialize (IHv s).
    destruct (parseValue fuel s) as [[v rest]| |] eqn:Hv; try discriminate.
    2:{ exfalso; apply IHv; [lia|reflexivity]. }
    apply Cv in Hv.
    destruct (skipWhiteSpace rest) as [|c rest'] eqn:Hs; [discriminate|].
    apply skipWhiteSpace_cons in Hs.
    destruct (c =? 93)%N; [discriminate|].
    destruct (c =? 44)%N; [|discriminate].
    specialize (IHe rest').
    destruct (parseElements fuel rest') as [[vs' r']| |];
      try discriminate.
    exfalso; apply IHe; [lia|reflexivity].
  - intros s Hf. simpl.
    destruct (skipWhiteSpace s) as [|q afterQuote] eqn:Hs; [discriminate|].
    apply skipWhiteSpace_cons in Hs.
    destruct (q =? 34)%N; [|discriminate].
    destruct (stringChars afterQuote) as [[name afterName]|] eqn:Hn;
      [|discriminate].
    apply stringChars_length in Hn.
    destruct (skipWhiteSpace afterName) as [|colon afterColon] eqn:Hc;
      [discriminate|].
    apply skipWhiteSpace_cons in Hc.
    destruct (colon =? 58)%N; [|discriminate].
    specialize (IHv afterColon).
    destruct (parseValue fuel afterColon) as [[v rest]| |] eqn:Hv;
      try discriminate.
    2:{ exfalso; apply IHv; [lia|reflexivity]. }
    apply Cv in Hv.
    destruct (skipWhiteSpace rest) as [|c rest'] eqn:Hr; [discriminate|].
    apply skipWhiteSpace_cons in Hr.
    destruct (c =? 125)%N; [discriminate|].
    destruct (c =? 44)%N; [|discriminate].
    specialize (IHm rest').
    destruct (parseMembers fuel rest') as [[ms' r']| |];
      try discriminate.
    exfalso; apply IHm; [lia|reflexivity].
Qed.

(** [JSON_parse] never spends its budget: where it throws, the text is not
    JSON. *)
Lemma JSON_parse_budget (text : jsstring) :
  parseValue (2 * length text + 1) text <> Starved.
Proof.
  apply (parse_budget (2 * length text + 1)). lia.
Qed.

(** More budget does not change a parse that did not run out. *)
Lemma parse_more_fuel (fuel : nat) :
  (forall fuel' s, fuel <= fuel' -> parseValue fuel s <> Starved ->
                   parseValue fuel' s = parseValue fuel s) /\
  (forall fuel' s, fuel <= fuel' -> parseElements fuel s <> Starved ->
                   parseElements fuel' s = parseElements fuel s) /\
  (forall fuel' s, fuel <= fuel' -> parseMembers fuel s <> Starved ->
                   parseMembers fuel' s = parseMembers fuel s).
Proof.
  induction fuel as [|fuel (IHv & IHe & IHm)].
  { repeat split; intros fuel' s _ H; now destruct H. }
  repeat split.
  - intros [|fuel'] s Hle; [lia|]. apply le_S_n in Hle. simpl.
    destruct (skipWhiteSpace s) as [|c rest]; [reflexivity|].
    destruct (c =? 91)%N.
    { destruct (skipWhiteSpace rest) as [|c' rest']; [reflexivity|].
      destruct (c' =? 93)%N; [reflexivity|].
      intros H. rewrite (IHe fuel' rest Hle); [reflexivity|].
      intros E. rewrite E in H. now apply H. }
    destruct (c =? 123)%N; [|reflexivity].
    destruct (skipWhiteSpace rest) as [|c' rest']; [reflexivity|].
    destruct (c' =? 125)%N; [reflexivity|].
    intros H. rewrite (IHm fuel' rest Hle); [reflexivity|].
    intros E. rewrite E in H. now apply H.
  - intros [|fuel'] s Hle; [lia|]. apply le_S_n in Hle. simpl.
    intros H.
    rewrite (IHv fuel' s Hle) by (intros E; rewrite E in H; now apply H).
    destruct (parseValue fuel s) as [[v rest]| |]; try reflexivity.
    destruct (skipWhiteSpace rest) as [|c rest']; [reflexivity|].
    destruct (c =? 93)%N; [reflexivity|].
    destruct (c =? 44)%N; [|reflexivity].
    rewrite (IHe fuel' rest' Hle); [reflexivity|].
    intros E. rewrite E in H. now apply H.
  - intros [|fuel'] s Hle; [lia|]. apply le_S_n in Hle. simpl.
    destruct (skipWhiteSpace s) as [|q afterQuote]; [reflexivity|].
    destruct (q =? 34)%N; [|reflexivity].
    destruct (stringChars afterQuote) as [[name afterName]|]; [|reflexivity].
    destruct (skipWhiteSpace afterName) as [|colon afterColon]; [reflexivity|].
    destruct (colon =? 58)%N; [|reflexivity].
    intros H.
    rewrite (IHv fuel' afterColon Hle)
      by (intros E; rewrite E in H; now apply H).
    destruct (parseValue fuel afterColon) as [[v rest]| |]; try reflexivity.
    destruct (skipWhiteSpace rest) as [|c rest']; [reflexivity|].
    destruct (c =? 125)%N; [reflexivity|].
    destruct (c =? 44)%N; [|reflexivity].
    rewrite (IHm fuel' rest' Hle); [reflexivity|].
    intros E. rewrite E in H. now apply H.
Qed.

(** A parse with any budget that succeeds is the parse [JSON_parse] makes. *)
Lemma parseValue_enough (fuel : nat) (s : jsstring) v rest :
  parseValue fuel s = Done (v, rest) ->
  parseValue (2 * length s + 1) s = Done (v, rest).
Proof.
  intros H.
  destruct (Nat.le_ge_cases fuel (2 * length s + 1)) as [Hle|Hge].
  - rewrite (proj1 (parse_more_fuel fuel) _ s Hle); [exact H|].
    rewrite H. discriminate.
  - rewrite <- H. symmetry.
    apply (proj1 (parse_more_fuel _) _ s Hge), JSON_parse_budget.
Qed.

(** *** Locality

    What a parser reads from a text does not depend on what follows the
    part it consumes, up to the one code unit a number literal looks
    ahead. *)
Ltac split_all := repeat match goal with |- _ /\ _ => split end.

Lemma hexValue_notLF h x : hexValue h = Some x -> h <> 10%N.
Proof. intros H E. subst h. discriminate H. Qed.

Lemma hex4_notLF h1 h2 h3 h4 u :
  hex4 h1 h2 h3 h4 = Some u ->
  h1 <> 10%N /\ h2 <> 10%N /\ h3 <> 10%N /\ h4 <> 10%N.
Proof.
  unfold hex4.
  destruct (hexValue h1) eqn:E1; [|discriminate].
  destruct (hexValue h2) eqn:E2; [|discriminate].
  destruct (hexValue h3) eqn:E3; [|discriminate].
  destruct (hexValue h4) eqn:E4; [|discriminate].
  intros _. repeat split; eapply hexValue_notLF; eauto.
Qed.

Lemma escape_notLF e u : escape e = Some u -> e <> 10%N.
Proof. intros H E. subst e. discriminate H. Qed.

Lemma endsWithToken_cons c body :
  endsWithToken body -> endsWithToken (c :: body).
Proof.
  intros (b & x & -> & Hx). exists (c :: b), x. split; [reflexivity|exact Hx].
Qed.

Lemma stringChars_local (s chars rest : jsstring) :
  stringChars s = Some (chars, rest) ->
  exists body,
    s = body ++ rest /\ noLineFeed body /\ endsWithToken body /\
    forall X, stringChars (body ++ X) = Some (chars, X).
Proof.
  remember (length s) as n eqn:Hn.
  revert s chars rest Hn.
  induction n as [n IH] using lt_wf_ind.
  intros [|c s] chars rest Hn; simpl; [discriminate|].
  simpl in Hn.
  destruct (c =? 34)%N eqn:Hq.
  { intros H; inversion H; subst.
    apply N.eqb_eq in Hq. subst c.
    exists [34%N]. split_all.
    - reflexivity.
    - constructor; [discriminate|constructor].
    - exists [], 34%N. split; reflexivity.
    - reflexivity. }
  destruct (c =? 92)%N eqn:Hb.
  - apply N.eqb_eq in Hb. subst c.
    destruct s as [|e s1]; [discriminate|].
    destruct (e =? 117)%N eqn:Hu.
    + apply N.eqb_eq in Hu. subst e.
      destruct s1 as [|h1 [|h2 [|h3 [|h4 s2]]]]; try discriminate.
      destruct (hex4 h1 h2 h3 h4) as [u|] eqn:Hh; [|discriminate].
      intros H. apply consChar_Some in H as (chars' & H & ->).
      apply (IH (length s2)) in H as (body & -> & Hlf & Hend & Hloc);
        [|simpl in *; lia|reflexivity].
      apply hex4_notLF in Hh as Hne. destruct Hne as (N1 & N2 & N3 & N4).
      exists (92%N :: 117%N :: h1 :: h2 :: h3 :: h4 :: body).
      split_all.
      * reflexivity.
      * repeat (constructor; [assumption || discriminate|]). exact Hlf.
      * now repeat apply endsWithToken_cons.
      * intros X. simpl. rewrite Hh, Hloc. reflexivity.
    + destruct (escape e) as [u|] eqn:He; [|discriminate].
      intros H. apply consChar_Some in H as (chars' & H & ->).
      apply (IH (length s1)) in H as (body & -> & Hlf & Hend & Hloc);
        [|simpl in *; lia|reflexivity].
      exists (92%N :: e :: body).
      split_all.
      * reflexivity.
      * constructor; [discriminate|].
        constructor; [eapply escape_notLF; eauto|exact Hlf].
      * now repeat apply endsWithToken_cons.
      * intros X. simpl. rewrite Hu, He, Hloc. reflexivity.
  - destruct (c <? 32)%N eqn:Hc; [discriminate|].
    intros H. apply consChar_Some in H as (chars' & H & ->).
    apply (IH (length s)) in H as (body & -> & Hlf & Hend & Hloc);
      [|simpl in *; lia|reflexivity].
    exists (c :: body).
    split_all.
    + reflexivity.
    + constructor; [|exact Hlf].
      apply N.ltb_ge in Hc. lia.
    + now apply endsWithToken_cons.
    + intros X. simpl. rewrite Hq, Hb, Hc, Hloc. reflexivity.
Qed.

Lemma isDigit_numberChar c : isDigit c = true -> numberChar c = true.
Proof. intros H. unfold numberChar. now rewrite H. Qed.

Lemma digits_stop (X : jsstring) :
  firstIs isDigit X = false -> digits X = ([], X).
Proof.
  destruct X as [|x X]; [reflexivity|]. simpl. now intros ->.
Qed.

Lemma forallb_digit_numberChar (body : jsstring) :
  forallb isDigit body = true -> forallb numberChar body = true.
Proof.
  induction body as [|c body IH]; simpl; [reflexivity|].
  intros H. apply andb_true_iff in H as [Hc Hb].
  now rewrite (isDigit_numberChar _ Hc), IH.
Qed.

Lemma digits_local (s : jsstring) :
  exists body,
    s = body ++ snd (digits s) /\
    forallb isDigit body = true /\
    length body = length (fst (digits s)) /\
    forall X, firstIs isDigit X = false ->
              digits (body ++ X) = (fst (digits s), X).
Proof.
  induction s as [|c s (body & Hs & Hall & Hlen & Hloc)].
  - exists []. split_all; try reflexivity. exact digits_stop.
  - simpl. destruct (isDigit c) eqn:Hc.
    + destruct (digits s) as [ds r] eqn:Hd. simpl in *.
      exists (c :: body). split_all.
      * now rewrite Hs at 1.
      * simpl. now rewrite Hc.
      * simpl. now rewrite Hlen.
      * intros X HX. simpl. rewrite Hc, (Hloc X HX). reflexivity.
    + exists []. split_all; try reflexivity.
      intros X HX. now rewrite digits_stop.
Qed.

Lemma intPart_local s ds rest :
  intPart s = Some (ds, rest) ->
  exists body,
    s = body ++ rest /\ forallb numberChar body = true /\ body <> [] /\
    forall X, firstIs isDigit X = false -> intPart (body ++ X) = Some (ds, X).
Proof.
  destruct s as [|c s]; simpl; [discriminate|].
  destruct (c =? 48)%N eqn:H0.
  { intros H; inversion H; subst.
    apply N.eqb_eq in H0. subst c.
    exists [48%N]. split_all; try reflexivity. discriminate. }
  destruct (isDigit c) eqn:Hc; [|discriminate].
  destruct (digits_local s) as (body & Hs & Hall & _ & Hloc).
  destruct (digits s) as [ds' r'] eqn:Hd. simpl in *.
  intros H; inversion H; subst.
  exists (c :: body). split_all.
  - reflexivity.
  - simpl. now rewrite (isDigit_numberChar _ Hc), forallb_digit_numberChar.
  - discriminate.
  - intros X HX. simpl. rewrite H0, Hc, (Hloc X HX). reflexivity.
Qed.

Lemma fracPart_stop (X : jsstring) :
  firstIs isPoint X = false -> fracPart X = Some ([], X).
Proof.
  destruct X as [|x X]; [reflexivity|]. simpl. unfold isPoint. now intros ->.
Qed.

Lemma fracPart_local s ds rest :
  fracPart s = Some (ds, rest) ->
  exists body,
    s = body ++ rest /\ forallb numberChar body = true /\
    firstIs isDigit body = false /\ firstIs isExponentMark body = false /\
    forall X, firstIs isDigit X = false -> firstIs isPoint X = false ->
              fracPart (body ++ X) = Some (ds, X).
Proof.
  destruct s as [|c s]; simpl.
  { intros H; inversion H; subst. exists []. split_all; try reflexivity.
    intros X _. apply fracPart_stop. }
  destruct (c =? 46)%N eqn:Hp.
  - destruct (digits_local s) as (body & Hs & Hall & _ & Hloc).
    destruct (digits s) as [[|d ds'] r'] eqn:Hd; [discriminate|].
    simpl in *. intros H; inversion H; subst.
    apply N.eqb_eq in Hp. subst c.
    exists (46%N :: body). split_all; try reflexivity.
    + simpl. now apply forallb_digit_numberChar.
    + intros X HX _. simpl. rewrite (Hloc X HX). reflexivity.
  - intros H; inversion H; subst. exists []. split_all; try reflexivity.
    intros X _. apply fracPart_stop.
Qed.

Lemma exponentDigits_local s e rest :
  exponentDigits s = Some (e, rest) ->
  exists body,
    s = body ++ rest /\ forallb numberChar body = true /\
    firstIs isDigit body = true /\
    forall X, firstIs isDigit X = false ->
              exponentDigits (body ++ X) = Some (e, X).
Proof.
  unfold exponentDigits.
  destruct (digits_local s) as (body & Hs & Hall & Hlen & Hloc).
  destruct (digits s) as [[|d ds'] r'] eqn:Hd; [discriminate|].
  simpl in *. intros H; inversion H; subst.
  exists body. split_all.
  - reflexivity.
  - now apply forallb_digit_numberChar.
  - destruct body as [|b body']; [discriminate Hlen|].
    simpl in Hall. now apply andb_true_iff in Hall as [Hb _].
  - intros X HX. rewrite (Hloc X HX). reflexivity.
Qed.

Lemma signedExponent_local s e rest :
  signedExponent s = Some (e, rest) ->
  exists body,
    s = body ++ rest /\ forallb numberChar body = true /\
    forall X, firstIs isDigit X = false ->
              signedExponent (body ++ X) = Some (e, X).
Proof.
  destruct s as [|c s0]; [discriminate|].
  cbn [signedExponent].
  destruct (c =? 45)%N eqn:Hm.
  { destruct (exponentDigits s0) as [[e0 r0]|] eqn:He; [|discriminate].
    apply exponentDigits_local in He as (body & -> & Hall & _ & Hloc).
    intros H; inversion H; subst.
    exists (c :: body). split_all.
    - reflexivity.
    - simpl. rewrite Hall. unfold numberChar. rewrite Hm.
      now rewrite !orb_true_r.
    - intros X HX. simpl. rewrite Hm, (Hloc X HX). reflexivity. }
  destruct (c =? 43)%N eqn:Hplus.
  - intros He.
    apply exponentDigits_local in He as (body & -> & Hall & _ & Hloc).
    exists (c :: body). split_all.
    + reflexivity.
    + simpl. rewrite Hall. unfold numberChar. rewrite Hplus.
      now rewrite !orb_true_r.
    + intros X HX. simpl. rewrite Hm, Hplus, (Hloc X HX). reflexivity.
  - intros He.
    apply exponentDigits_local in He as (body & Hs & Hall & Hfirst & Hloc).
    exists body. split_all; [exact Hs|exact Hall|].
    intros X HX.
    destruct body as [|b body']; [discriminate Hfirst|].
    simpl in Hs. inversion Hs; subst b.
    simpl. rewrite Hm, Hplus. exact (Hloc X HX).
Qed.

Lemma expPart_stop (X : jsstring) :
  firstIs isExponentMark X = false -> expPart X = Some (0%Z, X).
Proof.
  destruct X as [|x X]; [reflexivity|]. simpl. unfold isExponentMark.
  now intros ->.
Qed.

Lemma expPart_local s e rest :
  expPart s = Some (e, rest) ->
  exists body,
    s = body ++ rest /\ forallb numberChar body = true /\
    firstIs isDigit body = false /\ firstIs isPoint body = false /\
    forall X, firstIs isDigit X = false -> firstIs isExponentMark X = false ->
              expPart (body ++ X) = Some (e, X).
Proof.
  destruct s as [|c s]; simpl.
  { intros H; inversion H; subst. exists []. split_all; try reflexivity.
    intros X _. apply expPart_stop. }
  destruct ((c =? 101) || (c =? 69))%N eqn:He.
  - intros H.
    apply signedExponent_local in H as (body & -> & Hall & Hloc).
    assert (Hc : isDigit c = false /\ isPoint c = false).
    { apply orb_true_iff in He as [He|He]; apply N.eqb_eq in He; subst c;
        split; reflexivity. }
    exists (c :: body). split_all.
    + reflexivity.
    + simpl. rewrite Hall. unfold numberChar.
      apply orb_true_iff in He as [He|He]; rewrite He;
        now rewrite !orb_true_r.
    + apply Hc.
    + apply Hc.
    + intros X HX _. simpl. rewrite He. exact (Hloc X HX).
  - intros H; inversion H; subst. exists []. split_all; try reflexivity.
    intros X _. apply expPart_stop.
Qed.

Lemma firstIs_app_false (p : char16 -> bool) (body X : jsstring) :
  firstIs p body = false -> firstIs p X = false ->
  firstIs p (body ++ X) = false.
Proof. destruct body as [|b body]; simpl; auto. Qed.

Lemma numberEnds_parts (X : jsstring) :
  numberEnds X = true ->
  firstIs isDigit X = false /\ firstIs isPoint X = false /\
  firstIs isExponentMark X = false.
Proof.
  unfold numberEnds. intros H.
  apply andb_true_iff in H as [H H3]. apply andb_true_iff in H as [H1 H2].
  now rewrite negb_true_iff in H1, H2, H3.
Qed.

Lemma unsignedNumber_local s q rest :
  unsignedNumber s = Some (q, rest) ->
  exists body,
    s = body ++ rest /\ forallb numberChar body = true /\ body <> [] /\
    forall X, numberEnds X = true -> unsignedNumber (body ++ X) = Some (q, X).
Proof.
  unfold unsignedNumber.
  destruct (intPart s) as [[ints s2]|] eqn:Hi; [|discriminate].
  apply intPart_local in Hi as (bi & -> & Hai & Hne & Hli).
  destruct (fracPart s2) as [[fracs s3]|] eqn:Hf; [|discriminate].
  apply fracPart_local in Hf as (bf & -> & Haf & Hfd & Hfe & Hlf).
  destruct (expPart s3) as [[e s4]|] eqn:He; [|discriminate].
  apply expPart_local in He as (be & -> & Hae & Hed & Hep & Hle).
  intros H; inversion H; subst.
  exists (bi ++ bf ++ be). split_all.
  - now rewrite <- !app_assoc.
  - now rewrite !forallb_app, Hai, Haf, Hae.
  - destruct bi; [now destruct Hne|discriminate].
  - intros X HX. apply numberEnds_parts in HX as (Xd & Xp & Xe).
    rewrite <- !app_assoc.
    rewrite Hli by (repeat apply firstIs_app_false; assumption).
    rewrite Hlf by (apply firstIs_app_false; assumption).
    rewrite Hle by assumption.
    reflexivity.
Qed.

Lemma parseNumber_local s q rest :
  parseNumber s = Some (q, rest) ->
  exists body,
    s = body ++ rest /\ forallb numberChar body = true /\ body <> [] /\
    forall X, numberEnds X = true -> parseNumber (body ++ X) = Some (q, X).
Proof.
  destruct s as [|c s0]; [discriminate|].
  cbn [parseNumber].
  destruct (c =? 45)%N eqn:Hm.
  - destruct (unsignedNumber s0) as [[q0 r0]|] eqn:Hu; [|discriminate].
    apply unsignedNumber_local in Hu as (body & -> & Hall & Hne & Hloc).
    intros H; inversion H; subst.
    exists (c :: body). split_all.
    + reflexivity.
    + simpl. rewrite Hall. unfold numberChar. rewrite Hm.
      now rewrite !orb_true_r.
    + discriminate.
    + intros X HX. simpl. rewrite Hm, (Hloc X HX). reflexivity.
  - intros Hu.
    apply unsignedNumber_local in Hu as (body & Hs & Hall & Hne & Hloc).
    exists body. split_all; try assumption.
    intros X HX.
    destruct body as [|b body']; [now destruct Hne|].
    simpl in Hs. inversion Hs; subst b.
    simpl. rewrite Hm. exact (Hloc X HX).
Qed.

Lemma numberChar_range c : numberChar c = true -> (43 <= c <= 101)%N.
Proof.
  unfold numberChar, isDigit. intros H.
  repeat (apply orb_true_iff in H as [H|H]);
    try (apply N.eqb_eq in H; subst c; lia).
  apply andb_true_iff in H as [H1 H2].
  apply N.leb_le in H1, H2. lia.
Qed.

Lemma isWhiteSpace_range c :
  isWhiteSpace c = true -> (c <= 32 \/ 160 <= c)%N.
Proof.
  unfold isWhiteSpace. intros H.
  repeat (apply orb_true_iff in H as [H|H]);
    try (apply N.eqb_eq in H; subst c; lia);
    apply andb_true_iff in H as [H1 H2]; apply N.leb_le in H1, H2; lia.
Qed.

Lemma numberChar_token c : numberChar c = true -> isWhiteSpace c = false.
Proof.
  intros H. apply numberChar_range in H.
  destruct (isWhiteSpace c) eqn:Hw; [|reflexivity].
  apply isWhiteSpace_range in Hw. lia.
Qed.

Lemma numberChars_noLineFeed body :
  forallb numberChar body = true -> noLineFeed body.
Proof.
  intros H. apply Forall_forall. intros c Hc.
  rewrite forallb_forall in H. apply H, numberChar_range in Hc. lia.
Qed.

Lemma endsWithToken_app a b : endsWithToken b -> endsWithToken (a ++ b).
Proof.
  intros (b' & x & -> & Hx). exists (a ++ b'), x.
  split; [now rewrite app_assoc|exact Hx].
Qed.

Lemma endsWithToken_last a c : isWhiteSpace c = false -> endsWithToken (a ++ [c]).
Proof. intros H. now exists a, c. Qed.

Lemma endsWithToken_single c : isWhiteSpace c = false -> endsWithToken [c].
Proof. intros H. now exists [], c. Qed.

Ltac ends_token :=
  repeat match goal with
         | H : endsWithToken ?b |- endsWithToken ?b => exact H
         | |- endsWithToken (_ ++ _) => apply endsWithToken_app
         | |- endsWithToken [_] => apply endsWithToken_single
         | |- endsWithToken (_ :: _) => apply endsWithToken_cons
         end.

Ltac norm_app :=
  repeat first [rewrite <- app_assoc | rewrite <- app_comm_cons];
  cbn [app].

Lemma numberChars_endsWithToken body :
  forallb numberChar body = true -> body <> [] -> endsWithToken body.
Proof.
  intros H Hne.
  destruct (exists_last Hne) as (b & c & ->).
  apply endsWithToken_last, numberChar_token.
  rewrite forallb_app in H. apply andb_true_iff in H as [_ H].
  simpl in H. now rewrite andb_true_r in H.
Qed.

Lemma stripPrefix_local p s rest :
  stripPrefix p s = Some rest ->
  s = p ++ rest /\ forall X, stripPrefix p (p ++ X) = Some X.
Proof.
  revert s; induction p as [|x p IH]; intros s.
  - destruct s; simpl; intros H; inversion H; subst; split; reflexivity.
  - destruct s as [|y s]; simpl; [discriminate|].
    destruct (x =? y)%N eqn:Hxy; [|discriminate].
    apply N.eqb_eq in Hxy. subst y.
    intros H. apply IH in H as (-> & Hloc). split; [reflexivity|].
    intros X. rewrite N.eqb_refl. apply Hloc.
Qed.

Lemma literal_local name v s w rest :
  literal name v s = Some (w, rest) ->
  w = v /\ s = str name ++ rest /\
  forall X, literal name v (str name ++ X) = Some (v, X).
Proof.
  unfold literal.
  destruct (stripPrefix (str name) s) as [r|] eqn:Hp; [|discriminate].
  apply stripPrefix_local in Hp as (-> & Hloc).
  intros H; inversion H; subst. split_all; try reflexivity.
  intros X. now rewrite Hloc.
Qed.

Lemma parseScalar_local c rest0 v rest :
  parseScalar c rest0 = Some (v, rest) ->
  exists body,
    rest0 = body ++ rest /\ noLineFeed (c :: body) /\
    endsWithToken (c :: body) /\ isWhiteSpace c = false /\
    forall X, numberEnds X = true -> parseScalar c (body ++ X) = Some (v, X).
Proof.
  unfold parseScalar.
  destruct (c =? 34)%N eqn:Hq.
  { destruct (stringChars rest0) as [[chars rest']|] eqn:Hs; [|discriminate].
    apply stringChars_local in Hs as (body & -> & Hlf & Hend & Hloc).
    intros H; inversion H; subst.
    apply N.eqb_eq in Hq. subst c.
    exists body. split_all.
    - reflexivity.
    - constructor; [discriminate|exact Hlf].
    - now apply endsWithToken_cons.
    - reflexivity.
    - intros X _. now rewrite Hloc. }
  destruct ((c =? 45) || isDigit c)%N eqn:Hn.
  { destruct (parseNumber (c :: rest0)) as [[q rest']|] eqn:Hp; [|discriminate].
    apply parseNumber_local in Hp as (body & Hs & Hall & Hne & Hloc).
    intros H; inversion H; subst.
    destruct body as [|b body]; [now destruct Hne|].
    simpl in Hs. inversion Hs; subst.
    exists body. split_all.
    - reflexivity.
    - now apply numberChars_noLineFeed.
    - now apply numberChars_endsWithToken.
    - simpl in Hall. apply andb_true_iff in Hall as [Hb _].
      now apply numberChar_token.
    - intros X HX. specialize (Hloc X HX).
      change ((b :: body) ++ X) with (b :: body ++ X) in Hloc.
      now rewrite Hloc. }
  destruct (c =? 116)%N eqn:Ht.
  { intros H. apply literal_local in H as (-> & Hs & Hloc).
    apply N.eqb_eq in Ht. subst c.
    change (str "true") with (116%N :: str "rue") in Hs, Hloc.
    simpl in Hs. inversion Hs; subst.
    exists (str "rue"). split_all.
    - reflexivity.
    - repeat (constructor; [discriminate|]). constructor.
    - exists (str "tru"), 101%N. split; reflexivity.
    - reflexivity.
    - intros X _. apply Hloc. }
  destruct (c =? 102)%N eqn:Hf.
  { intros H. apply literal_local in H as (-> & Hs & Hloc).
    apply N.eqb_eq in Hf. subst c.
    change (str "false") with (102%N :: str "alse") in Hs, Hloc.
    simpl in Hs. inversion Hs; subst.
    exists (str "alse"). split_all.
    - reflexivity.
    - repeat (constructor; [discriminate|]). constructor.
    - exists (str "fals"), 101%N. split; reflexivity.
    - reflexivity.
    - intros X _. apply Hloc. }
  destruct (c =? 110)%N eqn:Hnull; [|discriminate].
  intros H. apply literal_local in H as (-> & Hs & Hloc).
  apply N.eqb_eq in Hnull. subst c.
  change (str "null") with (110%N :: str "ull") in Hs, Hloc.
  simpl in Hs. inversion Hs; subst.
  exists (str "ull"). split_all.
  - reflexivity.
  - repeat (constructor; [discriminate|]). constructor.
  - exists (str "nul"), 108%N. split; reflexivity.
  - reflexivity.
  - intros X _. apply Hloc.
Qed.

Lemma JSONWhiteSpace_isWhiteSpace c :
  isJSONWhiteSpace c = true -> isWhiteSpace c = true.
Proof.
  unfold isJSONWhiteSpace. intros H.
  repeat (apply orb_true_iff in H as [H|H]);
    apply N.eqb_eq in H; subst c; reflexivity.
Qed.

Lemma not_JSONWhiteSpace_notLF c : isJSONWhiteSpace c = false -> c <> 10%N.
Proof. intros H E. subst c. discriminate H. Qed.

Lemma skipWhiteSpace_split (s : jsstring) :
  exists ws, s = ws ++ skipWhiteSpace s /\ forallb isJSONWhiteSpace ws = true.
Proof.
  induction s as [|c s (ws & Hs & Hws)].
  - exists []. split; reflexivity.
  - simpl. destruct (isJSONWhiteSpace c) eqn:Hc.
    + exists (c :: ws). split; [now rewrite Hs at 1|].
      simpl. now rewrite Hc.
    + exists []. split; reflexivity.
Qed.

Lemma skipWhiteSpace_head (s : jsstring) c r :
  skipWhiteSpace s = c :: r -> isJSONWhiteSpace c = false.
Proof.
  induction s as [|x s IH]; simpl; [discriminate|].
  destruct (isJSONWhiteSpace x) eqn:Hx; [exact IH|].
  intros H; inversion H; subst. exact Hx.
Qed.

Lemma skipWhiteSpace_token c Y :
  isJSONWhiteSpace c = false -> skipWhiteSpace (c :: Y) = c :: Y.
Proof. intros H. simpl. now rewrite H. Qed.

Lemma JSONWhiteSpace_numberEnds w Y :
  isJSONWhiteSpace w = true -> numberEnds (w :: Y) = true.
Proof.
  unfold isJSONWhiteSpace. intros H.
  repeat (apply orb_true_iff in H as [H|H]);
    apply N.eqb_eq in H; subst w; reflexivity.
Qed.

Section Deletion.

(** Deleting from a text some of its line feeds. *)
Variable keep : char16 -> bool.
Hypothesis keep_other : forall c, c <> 10%N -> keep c = true.

Lemma filter_noLineFeed body : noLineFeed body -> filter keep body = body.
Proof.
  induction 1 as [|c body Hc _ IH]; simpl; [reflexivity|].
  now rewrite (keep_other c Hc), IH.
Qed.

Lemma filter_token c Y :
  isJSONWhiteSpace c = false -> filter keep (c :: Y) = c :: filter keep Y.
Proof.
  intros H. simpl. now rewrite (keep_other c (not_JSONWhiteSpace_notLF c H)).
Qed.

Lemma skipWhiteSpace_filter_ws ws Y :
  forallb isJSONWhiteSpace ws = true ->
  skipWhiteSpace (filter keep ws ++ Y) = skipWhiteSpace Y.
Proof.
  induction ws as [|w ws IH]; simpl; [reflexivity|].
  intros H. apply andb_true_iff in H as [Hw Hws].
  destruct (keep w); simpl; [rewrite Hw|]; now apply IH.
Qed.

Lemma numberEnds_filter_ws ws c Y :
  forallb isJSONWhiteSpace ws = true -> numberEnds (c :: Y) = true ->
  numberEnds (filter keep ws ++ c :: Y) = true.
Proof.
  induction ws as [|w ws IH]; simpl; [auto|].
  intros H HY. apply andb_true_iff in H as [Hw Hws].
  destruct (keep w); simpl; [|now apply IH].
  now apply JSONWhiteSpace_numberEnds.
Qed.

(** A text that ends with a token begins, after white space, with a token
    character, before and after the deletion. *)
Lemma skipWhiteSpace_body body :
  endsWithToken body ->
  exists c b,
    isJSONWhiteSpace c = false /\
    forall Y, skipWhiteSpace (body ++ Y) = c :: b ++ Y /\
              skipWhiteSpace (filter keep body ++ Y)
              = c :: filter keep b ++ Y.
Proof.
  induction body as [|x body IH]; intros Hend.
  { destruct Hend as (b & c & E & _). now destruct b. }
  destruct (isJSONWhiteSpace x) eqn:Hx.
  - assert (Hend' : endsWithToken body).
    { destruct Hend as (b & c & E & Hc).
      destruct b as [|y b]; simpl in E; inversion E; subst.
      - apply JSONWhiteSpace_isWhiteSpace in Hx. congruence.
      - now exists b, c. }
    destruct (IH Hend') as (c & b & Hc & Hskip).
    exists c, b. split; [exact Hc|]. intros Y.
    destruct (Hskip Y) as [H1 H2]. split.
    + simpl. now rewrite Hx.
    + simpl. destruct (keep x); simpl; [rewrite Hx|]; exact H2.
  - exists x, body. split; [exact Hx|]. intros Y. split.
    + simpl. now rewrite Hx.
    + rewrite (filter_token x body Hx). simpl. now rewrite Hx.
Qed.

(** A successful parse reads a part of the text that ends with a token, and
    reads the same value from that part with line feeds deleted, whatever
    follows it, so long as what follows cannot continue a number. *)
Lemma parse_local (fuel : nat) :
  (forall s v rest,
      parseValue fuel s = Done (v, rest) ->
      exists body,
        s = body ++ rest /\ endsWithToken body /\
        forall X, numberEnds X = true ->
                  parseValue fuel (filter keep body ++ X) = Done (v, X)) /\
  (forall s vs rest,
      parseElements fuel s = Done (vs, rest) ->
      exists body,
        s = body ++ rest /\ endsWithToken body /\
        forall X, parseElements fuel (filter keep body ++ X) = Done (vs, X)) /\
  (forall s ms rest,
      parseMembers fuel s = Done (ms, rest) ->
      exists body,
        s = body ++ rest /\ endsWithToken body /\
        forall X, parseMembers fuel (filter keep body ++ X) = Done (ms, X)).
Proof.
  induction fuel as [|fuel (IHv & IHe & IHm)].
  { split_all; intros; discriminate. }
  split_all.
  - intros s v rest.
    destruct (skipWhiteSpace_split s) as (ws & Hs & Hws).
    pose proof (skipWhiteSpace_head s) as Hhead.
    cbn [parseValue].
    destruct (skipWhiteSpace s) as [|c rest0]; [discriminate|].
    specialize (Hhead c rest0 eq_refl).
    assert (Hopen : forall inner X after,
      skipWhiteSpace (filter keep (ws ++ c :: inner) ++ X) = c :: after ->
      after = filter keep inner ++ X).
    { intros inner X after.
      rewrite filter_app, <- app_assoc, (skipWhiteSpace_filter_ws _ _ Hws).
      rewrite (filter_token c inner Hhead). cbn [app].
      rewrite (skipWhiteSpace_token c _ Hhead).
      intros E; now inversion E. }
    assert (Hskip : forall inner X,
      skipWhiteSpace (filter keep (ws ++ c :: inner) ++ X)
      = c :: filter keep inner ++ X).
    { intros inner X.
      rewrite filter_app, <- app_assoc, (skipWhiteSpace_filter_ws _ _ Hws).
      rewrite (filter_token c inner Hhead). cbn [app].
      apply (skipWhiteSpace_token c _ Hhead). }
    clear Hopen.
    destruct (c =? 91)%N eqn:Hbracket.
    { destruct (skipWhiteSpace_split rest0) as (ws' & Hs' & Hws').
      pose proof (skipWhiteSpace_head rest0) as Hhead'.
      destruct (skipWhiteSpace rest0) as [|c' rest'] eqn:Hskip0; [discriminate|].
      specialize (Hhead' c' rest' eq_refl).
      destruct (c' =? 93)%N eqn:Hclose.
      - intros H; inversion H; subst v rest'.
        exists (ws ++ c :: ws' ++ [c']). split_all.
        + rewrite Hs at 1. rewrite Hs' at 1. norm_app. reflexivity.
        + ends_token.
          apply N.eqb_eq in Hclose. subst c'. reflexivity.
        + intros X _. cbn [parseValue]. rewrite Hskip, Hbracket.
          rewrite filter_app, <- app_assoc.
          rewrite (skipWhiteSpace_filter_ws _ _ Hws').
          rewrite (filter_token c' [] Hhead'). cbn [filter app].
          rewrite (skipWhiteSpace_token c' _ Hhead'), Hclose.
          reflexivity.
      - destruct (parseElements fuel rest0) as [[vs r'']| |] eqn:He;
          try discriminate.
        intros H; inversion H; subst v r''.
        apply IHe in He as (be & Hbe & Hend & Hloc).
        destruct (skipWhiteSpace_body be Hend) as (c1 & b1 & Hc1 & Hfirst).
        assert (c1 = c').
        { destruct (Hfirst rest) as [H1 _]. rewrite <- Hbe, Hskip0 in H1.
          now inversion H1. }
        subst c1.
        exists (ws ++ c :: be). split_all.
        + rewrite Hs at 1. rewrite Hbe. norm_app. reflexivity.
        + ends_token.
        + intros X _. cbn [parseValue]. rewrite Hskip, Hbracket.
          destruct (Hfirst X) as [_ H2]. rewrite H2, Hclose.
          now rewrite Hloc. }
    destruct (c =? 123)%N eqn:Hbrace.
    { destruct (skipWhiteSpace_split rest0) as (ws' & Hs' & Hws').
      pose proof (skipWhiteSpace_head rest0) as Hhead'.
      destruct (skipWhiteSpace rest0) as [|c' rest'] eqn:Hskip0; [discriminate|].
      specialize (Hhead' c' rest' eq_refl).
      destruct (c' =? 125)%N eqn:Hclose.
      - intros H; inversion H; subst v rest'.
        exists (ws ++ c :: ws' ++ [c']). split_all.
        + rewrite Hs at 1. rewrite Hs' at 1. norm_app. reflexivity.
        + ends_token.
          apply N.eqb_eq in Hclose. subst c'. reflexivity.
        + intros X _. cbn [parseValue]. rewrite Hskip, Hbracket, Hbrace.
          rewrite filter_app, <- app_assoc.
          rewrite (skipWhiteSpace_filter_ws _ _ Hws').
          rewrite (filter_token c' [] Hhead'). cbn [filter app].
          rewrite (skipWhiteSpace_token c' _ Hhead'), Hclose.
          reflexivity.
      - destruct (parseMembers fuel rest0) as [[ms r'']| |] eqn:Hm;
          try discriminate.
        intros H; inversion H; subst v r''.
        apply IHm in Hm as (bm & Hbm & Hend & Hloc).
        destruct (skipWhiteSpace_body bm Hend) as (c1 & b1 & Hc1 & Hfirst).
        assert (c1 = c').
        { destruct (Hfirst rest) as [H1 _]. rewrite <- Hbm, Hskip0 in H1.
          now inversion H1. }
        subst c1.
        exists (ws ++ c :: bm). split_all.
        + rewrite Hs at 1. rewrite Hbm. norm_app. reflexivity.
        + ends_token.
        + intros X _. cbn [parseValue]. rewrite Hskip, Hbracket, Hbrace.
          destruct (Hfirst X) as [_ H2]. rewrite H2, Hclose.
          now rewrite Hloc. }
    destruct (parseScalar c rest0) as [[w r']|] eqn:Hp; [|discriminate].
    cbn [ofOption]. intros H; inversion H; subst w r'.
    apply parseScalar_local in Hp as (body & Hb & Hlf & Hend & Hc & Hloc).
    exists (ws ++ c :: body). split_all.
    + rewrite Hs at 1. rewrite Hb. norm_app. reflexivity.
    + now apply endsWithToken_app.
    + intros X HX. cbn [parseValue].
      rewrite filter_app, <- app_assoc, (skipWhiteSpace_filter_ws _ _ Hws).
      rewrite (filter_noLineFeed _ Hlf). cbn [app].
      rewrite (skipWhiteSpace_token c _ Hhead), Hbracket, Hbrace.
      now rewrite (Hloc X HX).
  - intros s vs rest. cbn [parseElements].
    destruct (parseValue fuel s) as [[v r1]| |] eqn:Hv; try discriminate.
    apply IHv in Hv as (bv & Hbv & Hendv & Hlocv).
    destruct (skipWhiteSpace_split r1) as (ws1 & Hs1 & Hws1).
    pose proof (skipWhiteSpace_head r1) as Hhead.
    destruct (skipWhiteSpace r1) as [|c r2]; [discriminate|].
    specialize (Hhead c r2 eq_refl).
    destruct (c =? 93)%N eqn:Hclose.
    + intros H; inversion H; subst vs r2.
      apply N.eqb_eq in Hclose. subst c.
      exists (bv ++ ws1 ++ [93%N]). split_all.
      * rewrite Hbv, Hs1. norm_app. reflexivity.
      * ends_token. reflexivity.
      * intros X. cbn [parseElements].
        rewrite !filter_app, <- !app_assoc.
        rewrite (filter_token 93%N [] Hhead). cbn [filter app].
        rewrite Hlocv by now apply numberEnds_filter_ws.
        rewrite (skipWhiteSpace_filter_ws _ _ Hws1).
        now rewrite (skipWhiteSpace_token 93%N _ Hhead).
    + destruct (c =? 44)%N eqn:Hcomma; [|discriminate].
      destruct (parseElements fuel r2) as [[vs' r3]| |] eqn:He;
        try discriminate.
      intros H; inversion H; subst vs r3.
      apply IHe in He as (be & Hbe & Hende & Hloce).
      apply N.eqb_eq in Hcomma. subst c.
      exists (bv ++ ws1 ++ 44%N :: be). split_all.
      * rewrite Hbv, Hs1, Hbe. norm_app. reflexivity.
      * ends_token.
      * intros X. cbn [parseElements].
        rewrite !filter_app, <- !app_assoc.
        rewrite (filter_token 44%N be Hhead). cbn [app].
        rewrite Hlocv by now apply numberEnds_filter_ws.
        rewrite (skipWhiteSpace_filter_ws _ _ Hws1).
        rewrite (skipWhiteSpace_token 44%N _ Hhead).
        cbn. now rewrite Hloce.
  - intros s ms rest. cbn [parseMembers].
    destruct (skipWhiteSpace_split s) as (ws & Hs & Hws).
    pose proof (skipWhiteSpace_head s) as Hhead.
    destruct (skipWhiteSpace s) as [|q afterQuote]; [discriminate|].
    specialize (Hhead q afterQuote eq_refl).
    destruct (q =? 34)%N eqn:Hq; [|discriminate].
    destruct (stringChars afterQuote) as [[name afterName]|] eqn:Hn;
      [|discriminate].
    apply stringChars_local in Hn as (bn & Hbn & Hlfn & Hendn & Hlocn).
    destruct (skipWhiteSpace_split afterName) as (wsc & Hsc & Hwsc).
    pose proof (skipWhiteSpace_head afterName) as Hheadc.
    destruct (skipWhiteSpace afterName) as [|colon afterColon]; [discriminate|].
    specialize (Hheadc colon afterColon eq_refl).
    destruct (colon =? 58)%N eqn:Hcolon; [|discriminate].
    destruct (parseValue fuel afterColon) as [[v r1]| |] eqn:Hv;
      try discriminate.
    apply IHv in Hv as (bv & Hbv & Hendv & Hlocv).
    destruct (skipWhiteSpace_split r1) as (ws1 & Hs1 & Hws1).
    pose proof (skipWhiteSpace_head r1) as Hhead1.
    destruct (skipWhiteSpace r1) as [|c r2]; [discriminate|].
    specialize (Hhead1 c r2 eq_refl).
    assert (Hprefix : forall Z,
      filter keep (ws ++ q :: bn ++ wsc ++ colon :: bv ++ ws1 ++ Z)
      = filter keep ws ++ q :: bn ++ filter keep wsc ++ colon
          :: filter keep bv ++ filter keep ws1 ++ filter keep Z).
    { intros Z. rewrite filter_app, (filter_token q _ Hhead).
      rewrite filter_app, (filter_noLineFeed _ Hlfn).
      rewrite filter_app, (filter_token colon _ Hheadc).
      now rewrite !filter_app. }
    destruct (c =? 125)%N eqn:Hclose.
    + intros H; inversion H; subst ms r2.
      apply N.eqb_eq in Hclose. subst c.
      exists (ws ++ q :: bn ++ wsc ++ colon :: bv ++ ws1 ++ [125%N]).
      split_all.
      * rewrite Hs at 1. rewrite Hbn, Hsc, Hbv, Hs1. norm_app. reflexivity.
      * ends_token. reflexivity.
      * intros X. cbn [parseMembers]. rewrite Hprefix.
        rewrite <- !app_assoc. rewrite (skipWhiteSpace_filter_ws _ _ Hws).
        cbn [app]. rewrite (skipWhiteSpace_token q _ Hhead), Hq.
        rewrite <- !app_assoc. rewrite Hlocn.
        rewrite (skipWhiteSpace_filter_ws _ _ Hwsc). cbn [app].
        rewrite (skipWhiteSpace_token colon _ Hheadc), Hcolon.
        rewrite <- !app_assoc.
        rewrite (filter_token 125%N [] Hhead1). cbn [filter app].
        rewrite Hlocv by now apply numberEnds_filter_ws.
        rewrite (skipWhiteSpace_filter_ws _ _ Hws1).
        now rewrite (skipWhiteSpace_token 125%N _ Hhead1).
    + destruct (c =? 44)%N eqn:Hcomma; [|discriminate].
      destruct (parseMembers fuel r2) as [[ms' r3]| |] eqn:Hm;
        try discriminate.
      intros H; inversion H; subst ms r3.
      apply IHm in Hm as (bm & Hbm & Hendm & Hlocm).
      apply N.eqb_eq in Hcomma. subst c.
      exists (ws ++ q :: bn ++ wsc ++ colon :: bv ++ ws1 ++ 44%N :: bm).
      split_all.
      * rewrite Hs at 1. rewrite Hbn, Hsc, Hbv, Hs1, Hbm. norm_app.
        reflexivity.
      * ends_token.
      * intros X. cbn [parseMembers]. rewrite Hprefix.
        rewrite <- !app_assoc. rewrite (skipWhiteSpace_filter_ws _ _ Hws).
        cbn [app]. rewrite (skipWhiteSpace_token q _ Hhead), Hq.
        rewrite <- !app_assoc. rewrite Hlocn.
        rewrite (skipWhiteSpace_filter_ws _ _ Hwsc). cbn [app].
        rewrite (skipWhiteSpace_token colon _ Hheadc), Hcolon.
        rewrite <- !app_assoc.
        rewrite (filter_token 44%N bm Hhead1). cbn [app].
        rewrite Hlocv by now apply numberEnds_filter_ws.
        rewrite (skipWhiteSpace_filter_ws _ _ Hws1).
        rewrite (skipWhiteSpace_token 44%N _ Hhead1).
        cbn. now rewrite Hlocm.
Qed.

End Deletion.


(** *** The cleaning step on a JSON text *)
Lemma filter_all {A : Type} (l : list A) : filter (fun _ => true) l = l.
Proof. induction l as [|x l IH]; simpl; [reflexivity|now rewrite IH]. Qed.

Lemma replace_optional_newline_filter (s : jsstring) :
  replace_optional_newline s = filter (fun c => negb (c =? 10)%N) s.
Proof.
  induction s as [|c s IH]; simpl; [reflexivity|].
  destruct (c =? 10)%N; simpl; now rewrite IH.
Qed.

Lemma skipWhiteSpace_idempotent (s : jsstring) :
  skipWhiteSpace (skipWhiteSpace s) = skipWhiteSpace s.
Proof.
  induction s as [|c s IH]; simpl; [reflexivity|].
  destruct (isJSONWhiteSpace c) eqn:Hc; [exact IH|].
  simpl. now rewrite Hc.
Qed.

Lemma parseValue_skip (fuel : nat) (s : jsstring) :
  parseValue fuel (skipWhiteSpace s) = parseValue fuel s.
Proof.
  destruct fuel as [|fuel]; [reflexivity|].
  simpl. now rewrite skipWhiteSpace_idempotent.
Qed.

Lemma skipWhiteSpace_nil (r : jsstring) :
  skipWhiteSpace r = [] -> forallb isJSONWhiteSpace r = true.
Proof.
  induction r as [|c r IH]; simpl; [reflexivity|].
  destruct (isJSONWhiteSpace c); [exact IH|discriminate].
Qed.

Lemma forallb_JSONWhiteSpace (r : jsstring) :
  forallb isJSONWhiteSpace r = true -> forallb isWhiteSpace r = true.
Proof.
  induction r as [|c r IH]; simpl; [reflexivity|].
  intros H. apply andb_true_iff in H as [Hc Hr].
  now rewrite (JSONWhiteSpace_isWhiteSpace c Hc), IH.
Qed.

Lemma trimStart_skipWhiteSpace (s : jsstring) c r :
  skipWhiteSpace s = c :: r -> isWhiteSpace c = false ->
  trimStart s = c :: r.
Proof.
  induction s as [|x s IH]; simpl; [discriminate|].
  destruct (isJSONWhiteSpace x) eqn:Hx.
  - rewrite (JSONWhiteSpace_isWhiteSpace x Hx). exact IH.
  - intros H Hc. inversion H; subst. now rewrite Hc.
Qed.

Lemma trimStart_ws (ws Y : jsstring) :
  forallb isWhiteSpace ws = true -> trimStart (ws ++ Y) = trimStart Y.
Proof.
  induction ws as [|w ws IH]; simpl; [reflexivity|].
  intros H. apply andb_true_iff in H as [Hw Hws]. now rewrite Hw, IH.
Qed.

Lemma trimEnd_token (u r : jsstring) :
  endsWithToken u -> forallb isWhiteSpace r = true -> trimEnd (u ++ r) = u.
Proof.
  intros (b & c & -> & Hc) Hr. unfold trimEnd.
  rewrite rev_app_distr, trimStart_ws.
  - rewrite rev_app_distr. simpl. rewrite Hc.
    change (c :: rev b) with ([c] ++ rev b).
    now rewrite rev_app_distr, rev_involutive.
  - rewrite forallb_forall in *. intros x Hx. apply Hr.
    now apply in_rev.
Qed.

(** A value begins, after white space, with a character that [trim] leaves
    alone. *)
Lemma parseValue_first (fuel : nat) (s : jsstring) v rest :
  parseValue fuel s = Done (v, rest) ->
  exists c r, skipWhiteSpace s = c :: r /\ isWhiteSpace c = false.
Proof.
  destruct fuel as [|fuel]; [discriminate|]. cbn [parseValue].
  destruct (skipWhiteSpace s) as [|c r]; [discriminate|].
  intros H. exists c, r. split; [reflexivity|].
  destruct (c =? 91)%N eqn:H1.
  { apply N.eqb_eq in H1. subst c. reflexivity. }
  destruct (c =? 123)%N eqn:H2.
  { apply N.eqb_eq in H2. subst c. reflexivity. }
  destruct (parseScalar c r) as [[w r']|] eqn:Hp; [|discriminate].
  now apply parseScalar_local in Hp as (_ & _ & _ & _ & Hc & _).
Qed.

Lemma ws_numberEnds (r : jsstring) :
  forallb isJSONWhiteSpace r = true -> numberEnds r = true.
Proof.
  destruct r as [|c r]; [reflexivity|]. simpl.
  intros H. apply andb_true_iff in H as [Hc _].
  now apply JSONWhiteSpace_numberEnds.
Qed.

Lemma forallb_filter {A : Type} (p q : A -> bool) (l : list A) :
  forallb p l = true -> forallb p (filter q l) = true.
Proof.
  induction l as [|x l IH]; simpl; [reflexivity|].
  intros H. apply andb_true_iff in H as [Hx Hl].
  destruct (q x); simpl; [rewrite Hx|]; now apply IH.
Qed.

(** Deleting line feeds from a JSON text leaves a JSON text of the same
    value. *)
Lemma parseValue_without_newlines (fuel : nat) (s : jsstring) v rest :
  parseValue fuel s = Done (v, rest) -> skipWhiteSpace rest = [] ->
  exists rest',
    parseValue fuel (replace_optional_newline s) = Done (v, rest') /\
    skipWhiteSpace rest' = [].
Proof.
  intros Hp Hrest.
  apply skipWhiteSpace_nil in Hrest.
  set (keep := fun c : N => negb (c =? 10)%N).
  assert (Hkeep : forall c, c <> 10%N -> keep c = true).
  { intros c Hc. unfold keep. apply negb_true_iff. now apply N.eqb_neq. }
  destruct (proj1 (parse_local keep Hkeep fuel) s v rest Hp)
    as (body & -> & _ & Hloc).
  exists (filter keep rest).
  rewrite replace_optional_newline_filter. fold keep.
  rewrite filter_app. split.
  - apply Hloc, ws_numberEnds. now apply forallb_filter.
  - assert (H : forallb isJSONWhiteSpace (filter keep rest) = true)
      by now apply forallb_filter.
    revert H. generalize (filter keep rest).
    induction l as [|c l IH]; simpl; [reflexivity|].
    intros H. apply andb_true_iff in H as [Hc Hl]. now rewrite Hc, IH.
Qed.

(** Trimming a JSON text leaves a JSON text of the same value. *)
Lemma parseValue_trim (fuel : nat) (s : jsstring) v rest :
  parseValue fuel s = Done (v, rest) -> skipWhiteSpace rest = [] ->
  parseValue fuel (trim s) = Done (v, []).
Proof.
  intros Hp Hrest.
  apply skipWhiteSpace_nil in Hrest.
  destruct (parseValue_first fuel s v rest Hp) as (c & r & Hskip & Hc).
  unfold trim. rewrite (trimStart_skipWhiteSpace s c r Hskip Hc).
  rewrite <- Hskip. rewrite <- parseValue_skip in Hp.
  destruct (proj1 (parse_local (fun _ => true) (fun _ _ => eq_refl) fuel)
              (skipWhiteSpace s) v rest Hp) as (body & Hbody & Hend & Hloc).
  rewrite Hbody.
  rewrite trimEnd_token; [|exact Hend|now apply forallb_JSONWhiteSpace].
  specialize (Hloc [] eq_refl).
  now rewrite filter_all, app_nil_r in Hloc.
Qed.

(** The cleaning step of [parseResponse] does not change what a JSON text
    parses to. *)
Theorem JSON_parse_cleanResponse (response : jsstring) (v : value) :
  JSON_parse response = Normal v ->
  JSON_parse (cleanResponse response) = Normal v.
Proof.
  unfold JSON_parse.
  destruct (parseValue (2 * length response + 1) response)
    as [[w rest]| |] eqn:Hp; try discriminate.
  destruct (skipWhiteSpace rest) eqn:Hrest; [|discriminate].
  intros H; inversion H; subst w.
  destruct (parseValue_without_newlines _ _ _ _ Hp Hrest)
    as (rest1 & Hp1 & Hrest1).
  destruct (parseValue_without_newlines _ _ _ _ Hp1 Hrest1)
    as (rest2 & Hp2 & Hrest2).
  pose proof (parseValue_trim _ _ _ _ Hp2 Hrest2) as Hp3.
  fold (cleanResponse response) in Hp3.
  rewrite (parseValue_enough _ _ _ _ Hp3). reflexivity.
Qed.

End JSONFacts.


(** ** Properties of [parseResponse] *)

Section ResponseParser.
Import JS GeminiClient.

Variable this : GeminiClient.t.

Lemma push_loop {A B : Type} (p : A -> bool) (f : A -> B) (l : list A)
  (acc : list B) :
  fold_left (fun out x => if p x then out ++ [f x] else out) l acc
  = acc ++ map f (filter p l).
Proof.
  revert acc; induction l as [|x l IH]; intros acc; simpl.
  - now rewrite app_nil_r.
  - destruct (p x); rewrite IH; simpl; [|reflexivity].
    now rewrite <- app_assoc.
Qed.

(** The loop of the fallback collects the lines that pass its test. *)
Lemma fallback_eq (response : jsstring) :
  fallback response = firstn 3 (extractedLines response).
Proof.
  unfold fallback, slice0, extractedLines, nonBlankLines.
  now rewrite push_loop.
Qed.

Lemma parseResponse_eq (response : jsstring) :
  parseResponse this response
  = Normal match structured response with
           | Normal (Some suggestions) => suggestions
           | Normal None | Throw _ => fallback response
           end.
Proof.
  unfold parseResponse, try_catch, bind.
  destruct (structured response) as [[l|]|e]; reflexivity.
Qed.

Lemma parseResponse_fallback (response : jsstring) :
  fallsBack response = true ->
  parseResponse this response = Normal (fallback response).
Proof.
  intros H. rewrite parseResponse_eq. unfold fallsBack in H.
  destruct (structured response) as [[l|]|e]; try reflexivity.
  discriminate.
Qed.

Lemma parseResponse_structured (response : jsstring) :
  fallsBack response = false ->
  exists l, structured response = Normal (Some l) /\
            parseResponse this response = Normal l.
Proof.
  intros H. rewrite parseResponse_eq. unfold fallsBack in H.
  destruct (structured response) as [[l|]|e]; try discriminate.
  now exists l.
Qed.

Lemma Array_map_records (records : list (list (jsstring * value))) :
  Array_map toSuggestion (map Obj records) = Normal (map suggestionOf records).
Proof.
  induction records as [|props records IH]; simpl; [reflexivity|].
  rewrite IH. reflexivity.
Qed.

Lemma structured_records (response : jsstring) props records :
  JSON_parse (cleanResponse response) = Normal (Obj props) ->
  getOwnProperty props (str "suggestions") = Arr (map Obj records) ->
  structured response = Normal (Some (map suggestionOf records)).
Proof.
  intros Hp Hs. unfold structured.
  rewrite Hp. simpl. rewrite Hs. simpl.
  rewrite Array_map_records. reflexivity.
Qed.

Lemma getOwnProperty_find props name :
  getOwnProperty props name
  = match findProperty props name with Some v => v | None => Undefined end.
Proof.
  induction props as [|[k v] props IH]; simpl; [reflexivity|].
  destruct (eqb_string k name); [reflexivity|exact IH].
Qed.

Lemma or_else_truthyOr props name default :
  or_else (getOwnProperty props name) default = truthyOr props name default.
Proof.
  unfold or_else, truthyOr. rewrite getOwnProperty_find.
  destruct (findProperty props name); reflexivity.
Qed.

Lemma suggestionOf_defaulted props :
  suggestionOf props = defaultedSuggestion props.
Proof.
  unfold suggestionOf, defaultedSuggestion.
  now rewrite !or_else_truthyOr.
Qed.

Lemma or_else_truthy a b :
  toBoolean b = true -> toBoolean (or_else a b) = true.
Proof.
  intros Hb. unfold or_else. destruct (toBoolean a) eqn:Ha; assumption.
Qed.

Lemma or_else_cases a b :
  or_else a b = b \/ toBoolean (or_else a b) = true.
Proof.
  unfold or_else. destruct (toBoolean a) eqn:Ha; auto.
Qed.

Lemma truthy_50 : toBoolean (Num 50) = true.
Proof. vm_compute. reflexivity. Qed.

Lemma truthy_placeholder :
  toBoolean (Str (str "No reasoning provided")) = true.
Proof. reflexivity. Qed.

(** What the callback of [map] returns, whatever the element. *)
Lemma toSuggestion_fields (element : value) (s : CommitSuggestion) :
  toSuggestion element = Normal s ->
  (message s = Str [] \/ toBoolean (message s) = true) /\
  toBoolean (confidence s) = true /\
  toBoolean (reasoning s) = true.
Proof.
  unfold toSuggestion.
  destruct (get element (str "message")) as [m|]; simpl; [|discriminate].
  destruct (get element (str "confidence")) as [c|]; simpl; [|discriminate].
  destruct (get element (str "reasoning")) as [r|]; simpl; [|discriminate].
  intros H; inversion H; subst; simpl.
  repeat split.
  - apply or_else_cases.
  - apply or_else_truthy, truthy_50.
  - apply or_else_truthy, truthy_placeholder.
Qed.

Lemma Array_map_Forall {A B : Type} (f : A -> completion B) (P : B -> Prop)
  (a : list A) (l : list B) :
  (forall x y, f x = Normal y -> P y) ->
  Array_map f a = Normal l -> Forall P l.
Proof.
  intros Hf. revert l; induction a as [|x a IH]; simpl; intros l.
  - intros H; inversion H; constructor.
  - destruct (f x) as [y|] eqn:Hx; simpl; [|discriminate].
    destruct (Array_map f a) as [ys|]; simpl; [|discriminate].
    intros H; inversion H; subst. constructor; eauto.
Qed.

Lemma structured_Forall (P : CommitSuggestion -> Prop) response l :
  (forall element s, toSuggestion element = Normal s -> P s) ->
  structured response = Normal (Some l) -> Forall P l.
Proof.
  intros HP. unfold structured.
  destruct (JSON_parse (cleanResponse response)) as [parsed|]; simpl;
    [|discriminate].
  destruct (get parsed (str "suggestions")) as [v|]; simpl; [|discriminate].
  destruct (toBoolean v && isArray v); [|discriminate].
  destruct v; try discriminate.
  destruct (Array_map toSuggestion elements) as [l'|] eqn:Hm; simpl;
    [|discriminate].
  intros H; inversion H; subst.
  eapply Array_map_Forall; eauto.
Qed.

Lemma extractedLines_Forall (P : CommitSuggestion -> Prop) response :
  (forall line, toBoolean (Str (trim line)) = true ->
                looksLikeMessage line = true -> P (extracted line)) ->
  Forall P (extractedLines response).
Proof.
  intros HP. unfold extractedLines, nonBlankLines.
  apply Forall_forall. intros s Hs.
  apply in_map_iff in Hs as (line & <- & Hl).
  apply filter_In in Hl as (Hl & Hlooks).
  apply filter_In in Hl as (_ & Hblank).
  now apply HP.
Qed.

Lemma Forall_firstn {A : Type} (P : A -> Prop) n (l : list A) :
  Forall P l -> Forall P (firstn n l).
Proof.
  intros H. revert n.
  induction H as [|x l Hx Hl IH]; intros [|n]; simpl; constructor; auto.
Qed.

Lemma fallback_Forall (P : CommitSuggestion -> Prop) response :
  (forall line, toBoolean (Str (trim line)) = true ->
                looksLikeMessage line = true -> P (extracted line)) ->
  Forall P (fallback response).
Proof.
  intros HP. rewrite fallback_eq. apply Forall_firstn.
  now apply extractedLines_Forall.
Qed.

(** When the fallback runs: [JSON.parse] throws, or reading [suggestions]
    throws (the text is [null]), or [suggestions] is missing or not an array,
    or the map callback throws (an element is [null]). *)
Lemma fallsBack_iff (response : jsstring) :
  fallsBack response = true <->
  (exists e, JSON_parse (cleanResponse response) = Throw e) \/
  (exists parsed,
     JSON_parse (cleanResponse response) = Normal parsed /\
     ((exists e, get parsed (str "suggestions") = Throw e) \/
      (exists v, get parsed (str "suggestions") = Normal v /\
                 isArray v = false) \/
      (exists elements e,
         get parsed (str "suggestions") = Normal (Arr elements) /\
         Array_map toSuggestion elements = Throw e))).
Proof.
  unfold fallsBack, structured.
  destruct (JSON_parse (cleanResponse response)) as [parsed|e]; simpl.
  2:{ split; [intros _; left; now exists e|reflexivity]. }
  destruct (get parsed (str "suggestions")) as [v|e] eqn:Hg; simpl.
  2:{ split; [|reflexivity]. intros _. right. exists parsed.
      split; [reflexivity|]. left. now exists e. }
  destruct (isArray v) eqn:Ha.
  - destruct v; try discriminate Ha. simpl.
    destruct (Array_map toSuggestion elements) as [l|e] eqn:Hm; simpl.
    + split; [discriminate|].
      intros [(e & He)|(parsed' & Hp & [(e & He)|[(v & Hv & Hv')|(els & e & Hv & He)]])];
        try discriminate.
      * inversion Hp; subst parsed'. rewrite Hg in He. discriminate.
      * inversion Hp; subst parsed'. rewrite Hg in Hv. inversion Hv; subst v.
        discriminate.
      * inversion Hp; subst parsed'. rewrite Hg in Hv. inversion Hv; subst els.
        congruence.
    + split; [|reflexivity]. intros _. right. exists parsed.
      split; [reflexivity|]. right. right. now exists elements, e.
  - rewrite andb_false_r. split; [|reflexivity]. intros _. right.
    exists parsed. split; [reflexivity|]. right. left. now exists v.
Qed.

Lemma trimStart_last (l : jsstring) (c : char16) :
  isWhiteSpace c = false -> exists l', trimStart (l ++ [c]) = l' ++ [c].
Proof.
  intros Hc. induction l as [|x l (l' & IH)]; simpl.
  - rewrite Hc. now exists [].
  - destruct (isWhiteSpace x).
    + now exists l'.
    + now exists (x :: l).
Qed.

Lemma trim_first (c : char16) (s : jsstring) :
  isWhiteSpace c = false -> exists s', trim (c :: s) = c :: s'.
Proof.
  intros Hc. unfold trim, trimEnd. simpl trimStart. rewrite Hc.
  simpl rev.
  destruct (trimStart_last (rev s) c Hc) as (l' & ->).
  rewrite rev_app_distr. now exists (rev l').
Qed.

(** A response that begins with a backquote is not JSON, cleaned or not. *)
Lemma backquote_falls_back (text : jsstring) :
  fallsBack (96%N :: text) = true.
Proof.
  unfold fallsBack, structured, cleanResponse.
  simpl replace_optional_newline.
  destruct (trim_first 96%N
              (replace_optional_newline (replace_optional_newline text))
              eq_refl) as (s' & ->).
  unfold JSON_parse.
  replace (2 * length (96%N :: s') + 1) with (S (2 * length (96%N :: s')))
    by lia.
  reflexivity.
Qed.

End ResponseParser.

(** ** [JSON.parse] never gives [undefined] *)

Section Defined.
Import JS.

Lemma defineProperty_defined props name v :
  forallb (fun p => defined (snd p)) props = true -> defined v = true ->
  forallb (fun p => defined (snd p)) (defineProperty props name v) = true.
Proof.
  intros Hp Hv. induction props as [|[k w] props IH]; simpl.
  - now rewrite Hv.
  - simpl in Hp. apply andb_true_iff in Hp as [Hw Hp].
    destruct (eqb_string k name); simpl.
    + now rewrite Hv, Hp.
    + now rewrite Hw, IH.
Qed.

Lemma members_defined ms props :
  forallb (fun p => defined (snd p)) ms = true ->
  forallb (fun p => defined (snd p)) props = true ->
  forallb (fun p => defined (snd p))
    (fold_left (fun props m => defineProperty props (fst m) (snd m)) ms props)
  = true.
Proof.
  revert props; induction ms as [|[k v] ms IH]; intros props Hms Hp; simpl;
    [exact Hp|].
  simpl in Hms. apply andb_true_iff in Hms as [Hv Hms].
  apply IH; [exact Hms|]. now apply defineProperty_defined.
Qed.

Lemma parseScalar_defined c rest v r :
  parseScalar c rest = Some (v, r) -> defined v = true.
Proof.
  unfold parseScalar, literal.
  destruct (c =? 34)%N.
  { destruct (stringChars rest) as [[? ?]|]; [|discriminate].
    intros H; inversion H; reflexivity. }
  destruct ((c =? 45) || isDigit c)%N.
  { destruct (parseNumber (c :: rest)) as [[? ?]|]; [|discriminate].
    intros H; inversion H; reflexivity. }
  destruct (c =? 116)%N.
  { destruct (stripPrefix _ _); [|discriminate].
    intros H; inversion H; reflexivity. }
  destruct (c =? 102)%N.
  { destruct (stripPrefix _ _); [|discriminate].
    intros H; inversion H; reflexivity. }
  destruct (c =? 110)%N; [|discriminate].
  destruct (stripPrefix _ _); [|discriminate].
  intros H; inversion H; reflexivity.
Qed.

Lemma parse_defined (fuel : nat) :
  (forall s v r, parseValue fuel s = Done (v, r) -> defined v = true) /\
  (forall s vs r, parseElements fuel s = Done (vs, r) ->
                  forallb defined vs = true) /\
  (forall s ms r, parseMembers fuel s = Done (ms, r) ->
                  forallb (fun p => defined (snd p)) ms = true).
Proof.
  induction fuel as [|fuel (IHv & IHe & IHm)].
  { repeat split; intros; discriminate. }
  split; [|split].
  - intros s v r. cbn [parseValue].
    destruct (skipWhiteSpace s) as [|c rest]; [discriminate|].
    destruct (c =? 91)%N.
    { destruct (skipWhiteSpace rest) as [|c' rest']; [discriminate|].
      destruct (c' =? 93)%N; [intros H; inversion H; reflexivity|].
      destruct (parseElements fuel rest) as [[vs r']| |] eqn:He;
        try discriminate.
      intros H; inversion H; subst. simpl. eapply IHe; eauto. }
    destruct (c =? 123)%N.
    { destruct (skipWhiteSpace rest) as [|c' rest']; [discriminate|].
      destruct (c' =? 125)%N; [intros H; inversion H; reflexivity|].
      destruct (parseMembers fuel rest) as [[ms r']| |] eqn:Hm;
        try discriminate.
      intros H; inversion H; subst. simpl.
      apply members_defined; [eapply IHm; eauto|reflexivity]. }
    destruct (parseScalar c rest) as [[w r']|] eqn:Hp; [|discriminate].
    cbn [ofOption]. intros H; inversion H; subst.
    eapply parseScalar_defined; eauto.
  - intros s vs r. cbn [parseElements].
    destruct (parseValue fuel s) as [[v rest]| |] eqn:Hv; try discriminate.
    apply IHv in Hv.
    destruct (skipWhiteSpace rest) as [|c rest']; [discriminate|].
    destruct (c =? 93)%N.
    { intros H; inversion H; subst. simpl. now rewrite Hv. }
    destruct (c =? 44)%N; [|discriminate].
    destruct (parseElements fuel rest') as [[vs' r']| |] eqn:He;
      try discriminate.
    intros H; inversion H; subst. simpl. rewrite Hv. eapply IHe; eauto.
  - intros s ms r. cbn [parseMembers].
    destruct (skipWhiteSpace s) as [|q afterQuote]; [discriminate|].
    destruct (q =? 34)%N; [|discriminate].
    destruct (stringChars afterQuote) as [[name afterName]|]; [|discriminate].
    destruct (skipWhiteSpace afterName) as [|colon afterColon];
      [discriminate|].
    destruct (colon =? 58)%N; [|discriminate].
    destruct (parseValue fuel afterColon) as [[v rest]| |] eqn:Hv;
      try discriminate.
    apply IHv in Hv.
    destruct (skipWhiteSpace rest) as [|c rest']; [discriminate|].
    destruct (c =? 125)%N.
    { intros H; inversion H; subst. simpl. now rewrite Hv. }
    destruct (c =? 44)%N; [|discriminate].
    destruct (parseMembers fuel rest') as [[ms' r']| |] eqn:Hm;
      try discriminate.
    intros H; inversion H; subst. simpl. rewrite Hv. eapply IHm; eauto.
Qed.

Lemma JSON_parse_defined (text : jsstring) (v : value) :
  JSON_parse text = Normal v -> defined v = true.
Proof.
  unfold JSON_parse.
  destruct (parseValue (2 * length text + 1) text) as [[w rest]| |] eqn:Hp;
    try discriminate.
  destruct (skipWhiteSpace rest); [|discriminate].
  intros H; inversion H; subst.
  eapply (proj1 (parse_defined _)); eauto.
Qed.

Lemma findProperty_defined props name v :
  forallb (fun p => defined (snd p)) props = true ->
  findProperty props name = Some v -> defined v = true.
Proof.
  induction props as [|[k w] props IH]; simpl; [discriminate|].
  intros H. apply andb_true_iff in H as [Hw Hp].
  destruct (eqb_string k name); [|now apply IH].
  intros E; inversion E; subst. exact Hw.
Qed.

End Defined.

(** ** The elements of [suggestions] *)

Section ResponseElements.
Import JS GeminiClient.

Lemma structured_of_value (response : jsstring) (v : value) :
  JSON_parse (cleanResponse response) = Normal v ->
  structured response
  = (suggestions <- get v (str "suggestions") ;;
     if toBoolean suggestions && isArray suggestions then
       match suggestions with
       | Arr elements =>
           l <- Array_map toSuggestion elements ;;
           Normal (Some l)
       | _ => Normal None
       end
     else Normal None).
Proof. intros H. unfold structured. now rewrite H. Qed.

Lemma Array_map_null (elements : list value) :
  In Null elements -> exists e, Array_map toSuggestion elements = Throw e.
Proof.
  induction elements as [|x elements IH]; [intros []|].
  intros [->|Hin].
  - now exists TypeError.
  - destruct (IH Hin) as (e & He). simpl.
    destruct (toSuggestion x) as [y|e']; simpl.
    + rewrite He. now exists e.
    + now exists e'.
Qed.

Lemma toSuggestion_element (element : value) :
  element <> Null -> element <> Undefined ->
  toSuggestion element = Normal (suggestionOfElement element).
Proof.
  intros Hn Hu. destruct element; try congruence; try reflexivity.
  unfold suggestionOfElement. rewrite <- suggestionOf_defaulted.
  reflexivity.
Qed.

Lemma Array_map_elements (elements : list value) :
  ~ In Null elements -> ~ In Undefined elements ->
  Array_map toSuggestion elements
  = Normal (map suggestionOfElement elements).
Proof.
  induction elements as [|x elements IH]; [reflexivity|].
  intros Hn Hu. simpl.
  rewrite toSuggestion_element, IH; simpl; auto;
    intros H; [apply Hn|apply Hu|apply Hn|apply Hu]; simpl; auto.
Qed.

Lemma structured_elements (response : jsstring) :
  fallsBack response = false ->
  exists props elements,
    JSON_parse (cleanResponse response) = Normal (Obj props) /\
    findProperty props (str "suggestions") = Some (Arr elements) /\
    ~ In Null elements /\
    structured response = Normal (Some (map suggestionOfElement elements)).
Proof.
  unfold fallsBack.
  destruct (JSON_parse (cleanResponse response)) as [v|e] eqn:Hp.
  - rewrite (structured_of_value _ _ Hp).
    pose proof (JSON_parse_defined _ _ Hp) as Hd.
    destruct v as [| |b|q|s|vs|props]; try discriminate.
    cbn [get bind]. rewrite getOwnProperty_find.
    destruct (findProperty props (str "suggestions")) as [[| |b|q|s|elements|ps]|]
      eqn:Hs; try discriminate;
      try (destruct (toBoolean _); discriminate).
    cbn [toBoolean isArray andb].
    destruct (Array_map toSuggestion elements) as [l|e] eqn:Hm;
      [|discriminate].
    intros _. exists props, elements.
    assert (Hn : ~ In Null elements).
    { intros Hin. destruct (Array_map_null _ Hin) as (e & He). congruence. }
    assert (Hu : ~ In Undefined elements).
    { intros Hin. cbn [defined] in Hd.
      apply (findProperty_defined _ _ _ Hd) in Hs. cbn [defined] in Hs.
      rewrite forallb_forall in Hs. now apply Hs in Hin. }
    rewrite (Array_map_elements _ Hn Hu) in Hm.
    injection Hm as <-. now repeat split.
  - unfold structured. rewrite Hp. discriminate.
Qed.

Lemma Forall2_map_r {A B : Type} (R : A -> B -> Prop) (f : A -> B)
  (l : list A) :
  (forall a, R a (f a)) -> Forall2 R l (map f l).
Proof.
  intros H. induction l as [|a l IH]; constructor; auto.
Qed.


Lemma carriesReasoning_element (element : value) :
  carriesReasoning element (suggestionOfElement element).
Proof. destruct element; reflexivity. Qed.

End ResponseElements.

(** ** The claims about [parseResponse] *)

Section ResponseClaims.
Import JS GeminiClient.

(** C2, as stated, fails: a confidence of 0 is present in the record, and the
    suggestion carries 50 in its place. *)
Lemma zero_confidence_counterexample :
  ~ (forall response props records,
       JSON_parse response = Normal (Obj props) ->
       findProperty props (str "suggestions") = Some (Arr (map Obj records)) ->
       parseResponse client response
       = Normal (map specifiedSuggestion records)).
Proof.
  intros H.
  specialize (H zeroConfidenceResponse
                [(str "suggestions",
                  Arr [Obj [(str "message", Str (str "x"));
                            (str "confidence", Num 0)]])]
                [[(str "message", Str (str "x"));
                  (str "confidence", Num 0)]]).
  assert (E : parseResponse client zeroConfidenceResponse
              = Normal [suggestion "x" 50 "No reasoning provided"])
    by (vm_compute; reflexivity).
  rewrite E in H.
  specialize (H ltac:(vm_compute; reflexivity) ltac:(vm_compute; reflexivity)).
  vm_compute in H. discriminate H.
Qed.

(** C2, amended: when the response is a JSON object whose [suggestions]
    property is an array of records, [parseResponse] returns one suggestion
    for each record, in order; its [message], [confidence] and [reasoning] are
    the record's where the record has a truthy one, and the empty string, 50
    and "No reasoning provided" where the field is missing or falsy.  The
    same holds when only the cleaned response is such a JSON object.  The two
    sample responses of the specification give the suggestions it lists. *)
Theorem structured_suggestions_defaulted :
  (forall this response props records,
      JSON_parse response = Normal (Obj props) ->
      findProperty props (str "suggestions") = Some (Arr (map Obj records)) ->
      parseResponse this response
      = Normal (map defaultedSuggestion records)) /\
  (forall this response props records,
      JSON_parse (cleanResponse response) = Normal (Obj props) ->
      findProperty props (str "suggestions") = Some (Arr (map Obj records)) ->
      parseResponse this response
      = Normal (map defaultedSuggestion records)) /\
  (forall this,
      parseResponse this fixBugResponse
      = Normal [suggestion "fix bug" 90 "why"]) /\
  (forall this,
      parseResponse this messageOnlyResponse
      = Normal [suggestion "x" 50 "No reasoning provided"]).
Proof.
  assert (Hclean : forall this response props records,
      JSON_parse (cleanResponse response) = Normal (Obj props) ->
      findProperty props (str "suggestions") = Some (Arr (map Obj records)) ->
      parseResponse this response
      = Normal (map defaultedSuggestion records)).
  { intros this response props records Hp Hs.
    rewrite parseResponse_eq.
    rewrite (structured_records response props records Hp).
    - f_equal. apply map_ext. intros r. apply suggestionOf_defaulted.
    - rewrite getOwnProperty_find, Hs. reflexivity. }
  split; [|split; [|split]].
  - intros this response props records Hp.
    apply Hclean. now apply JSONFacts.JSON_parse_cleanResponse.
  - exact Hclean.
  - intros this. vm_compute. reflexivity.
  - intros this. vm_compute. reflexivity.
Qed.

Lemma structured_suggestions_defaulted_witness :
  parseResponse client zeroConfidenceResponse
  = Normal (map defaultedSuggestion
              [[(str "message", Str (str "x")); (str "confidence", Num 0)]]).
Proof.
  apply (proj1 structured_suggestions_defaulted client zeroConfidenceResponse
           [(str "suggestions",
             Arr [Obj [(str "message", Str (str "x"));
                       (str "confidence", Num 0)]])]).
  - vm_compute. reflexivity.
  - vm_compute. reflexivity.
Defined.

(** C3 fails on the code: the two [replace] calls remove line feeds, not
    fence markers, so a fenced payload reaches [JSON.parse] with its fences
    and is refused: every response that begins with a backquote is left to
    the fallback.  For the sample payload on one line the fallback finds
    nothing in the fenced text, while the bare payload gives its suggestion;
    for a payload laid out as the prompt shows it, the bare text gives its
    suggestion and the fenced text gives three lines of JSON as messages. *)
Theorem fenced_response_falls_back :
  (forall payload : jsstring,
      fallsBack (str "```json" ++ nl ++ payload ++ nl ++ str "```") = true /\
      fallsBack (str "```" ++ nl ++ payload ++ nl ++ str "```") = true) /\
  cleanResponse fencedResponse
  = str "```json" ++ messageOnlyResponse ++ str "```" /\
  JSON_parse (cleanResponse fencedResponse) = Throw SyntaxError /\
  parseResponse client fencedResponse = Normal [] /\
  parseResponse client messageOnlyResponse
  = Normal [suggestion "x" 50 "No reasoning provided"] /\
  parseResponse client layoutResponse
  = Normal [suggestion "fix: typo" 95 "short"] /\
  parseResponse client fencedLayoutResponse
  = Normal [{| message := Str (quoted "suggestions" ++ str ": [");
               confidence := Num 70;
               reasoning := Str (str "Extracted from AI response") |};
            {| message := Str (quoted "message" ++ str ": "
                                 ++ quoted "fix: typo" ++ str ",");
               confidence := Num 70;
               reasoning := Str (str "Extracted from AI response") |};
            {| message := Str (quoted "confidence" ++ str ": 95,");
               confidence := Num 70;
               reasoning := Str (str "Extracted from AI response") |}].
Proof.
  split; [|repeat split; vm_compute; reflexivity].
  intros payload. split; apply backquote_falls_back.
Qed.

(** C4, as stated, fails: of four lines that qualify only three come back. *)
Lemma four_lines_counterexample :
  ~ (forall response,
       fallsBack response = true ->
       parseResponse client response = Normal (extractedLines response)).
Proof.
  intros H. specialize (H fourLinesResponse ltac:(vm_compute; reflexivity)).
  apply (f_equal (fun c => match c with
                           | Normal l => length l
                           | Throw _ => 0
                           end)) in H.
  vm_compute in H. discriminate H.
Qed.

(** C4, amended: on the fallback path [parseResponse] returns, in the order
    of the lines, a suggestion for each of the first three non-blank lines
    that hold a colon and do not begin with a brace; its message is the
    trimmed line, its confidence 70, its reasoning "Extracted from AI
    response".  The prose sample gives its one suggestion and the empty
    response none.  The fallback path is taken exactly when [JSON.parse] or
    a property read throws or [suggestions] is missing or not an array. *)
Theorem fallback_extracts_first_three :
  (forall this response,
      fallsBack response = true ->
      parseResponse this response
      = Normal
          (firstn 3
             (map (fun line =>
                     {| message := Str (trim line);
                        confidence := Num 70;
                        reasoning := Str (str "Extracted from AI response") |})
                (filter (fun line =>
                           includes 58%N line && negb (startsWith 123%N line)
                             && negb (startsWith 125%N line))
                   (nonBlankLines response))))) /\
  (forall this,
      parseResponse this proseResponse
      = Normal [suggestion "feat: add login" 70 "Extracted from AI response"]) /\
  (forall this, parseResponse this [] = Normal []) /\
  (forall response,
      fallsBack response = true <->
      (exists e, JSON_parse (cleanResponse response) = Throw e) \/
      (exists parsed,
         JSON_parse (cleanResponse response) = Normal parsed /\
         ((exists e, get parsed (str "suggestions") = Throw e) \/
          (exists v, get parsed (str "suggestions") = Normal v /\
                     isArray v = false) \/
          (exists elements e,
             get parsed (str "suggestions") = Normal (Arr elements) /\
             Array_map toSuggestion elements = Throw e)))).
Proof.
  split; [|split; [|split]].
  - intros this response Hf.
    rewrite (parseResponse_fallback this response Hf), fallback_eq.
    reflexivity.
  - intros this. vm_compute. reflexivity.
  - intros this. vm_compute. reflexivity.
  - exact fallsBack_iff.
Qed.

Lemma fallback_extracts_first_three_witness :
  parseResponse client fourLinesResponse
  = Normal [suggestion "feat: a" 70 "Extracted from AI response";
            suggestion "fix: b" 70 "Extracted from AI response";
            suggestion "docs: c" 70 "Extracted from AI response"].
Proof.
  rewrite (proj1 fallback_extracts_first_three client fourLinesResponse).
  - vm_compute. reflexivity.
  - vm_compute. reflexivity.
Defined.

(** C5: on the fallback path at most three suggestions come back, the first
    three found, in order; the structured path has no cap: a response with
    four records gives four suggestions. *)
Theorem fallback_capped_structured_uncapped :
  (forall this response,
      fallsBack response = true ->
      exists l, parseResponse this response = Normal l /\
                length l <= 3 /\
                l = firstn 3 (extractedLines response)) /\
  (forall this,
      fallsBack fourRecordsResponse = false /\
      exists l, parseResponse this fourRecordsResponse = Normal l /\
                length l = 4).
Proof.
  split.
  - intros this response Hf.
    exists (fallback response). split; [|split].
    + now apply parseResponse_fallback.
    + rewrite fallback_eq. rewrite length_firstn. lia.
    + apply fallback_eq.
  - intros this. split; [vm_compute; reflexivity|].
    eexists. split; [vm_compute; reflexivity|]. reflexivity.
Qed.

Lemma fallback_capped_structured_uncapped_witness :
  exists l, parseResponse client fourLinesResponse = Normal l /\
            length l <= 3 /\
            l = firstn 3 (extractedLines fourLinesResponse).
Proof.
  apply (proj1 fallback_capped_structured_uncapped client fourLinesResponse).
  vm_compute. reflexivity.
Defined.


Lemma trimmed_line_nonempty (line : jsstring) :
  toBoolean (Str (trim line)) = true -> trim line <> [].
Proof.
  simpl. destruct (trim line); [discriminate|discriminate].
Qed.



(** C10, as stated, fails: a record whose reasoning is the empty array
    comes back with the empty array for a rationale, which is no text and
    reads as the empty one where it is printed. *)
Lemma empty_array_reasoning_counterexample :
  ~ (forall response l,
       parseResponse client response = Normal l ->
       Forall nonEmptyRationale l).
Proof.
  intros H.
  specialize (H emptyArrayReasoningResponse
                [{| message := Str (str "m");
                    confidence := Num 50;
                    reasoning := Arr [] |}]
                ltac:(vm_compute; reflexivity)).
  inversion H as [|s l (r & Hr & _) _]; subst.
  discriminate Hr.
Qed.

(** C10, amended: every suggestion [parseResponse] returns has a truthy
    reasoning, so never the empty string, and on the fallback path always
    "Extracted from AI response".  On the structured path the reasoning is
    that of the record where it is truthy, a text or not, and "No reasoning
    provided" in the place of any falsy reasoning, the empty string and a
    missing one among them, and for an element that is no record. *)
Theorem reasoning_truthy_by_path (this : GeminiClient.t)
  (response : jsstring) :
  (exists l,
     parseResponse this response = Normal l /\
     Forall (fun s => toBoolean (reasoning s) = true /\ reasoning s <> Str []) l /\
     (fallsBack response = true ->
        Forall (fun s => reasoning s = Str (str "Extracted from AI response")) l) /\
     (fallsBack response = false ->
        exists props elements,
          JSON_parse (cleanResponse response) = Normal (Obj props) /\
          findProperty props (str "suggestions") = Some (Arr elements) /\
          Forall2 carriesReasoning elements l)) /\
  (forall props,
     toBoolean (getOwnProperty props (str "reasoning")) = false ->
     exists s, toSuggestion (Obj props) = Normal s /\
               reasoning s = Str (str "No reasoning provided")) /\
  (forall m c,
     toSuggestion (Obj [(str "message", m); (str "confidence", c);
                        (str "reasoning", Str [])])
     = Normal {| message := or_else m (Str []);
                 confidence := or_else c (Num 50);
                 reasoning := Str (str "No reasoning provided") |}) /\
  (forall props,
     toBoolean (getOwnProperty props (str "reasoning")) = true ->
     exists s, toSuggestion (Obj props) = Normal s /\
               reasoning s = getOwnProperty props (str "reasoning")).
Proof.
  assert (Htruthy : forall v, toBoolean v = true -> v <> Str []).
  { intros v Hv E. subst v. discriminate Hv. }
  split; [|split; [|split]].
  - destruct (fallsBack response) eqn:Hf.
    + exists (fallback response). split; [|split; [|split]].
      * now apply parseResponse_fallback.
      * apply fallback_Forall. intros line _ _. split; [reflexivity|].
        apply Htruthy. reflexivity.
      * intros _. apply fallback_Forall. reflexivity.
      * discriminate.
    + destruct (structured_elements response Hf)
        as (props & elements & Hp & Hs & _ & Hstr).
      exists (map suggestionOfElement elements).
      split; [|split; [|split]].
      * rewrite parseResponse_eq, Hstr. reflexivity.
      * eapply structured_Forall; [|exact Hstr].
        intros element s Hts.
        apply toSuggestion_fields in Hts as (_ & _ & Hr).
        split; [exact Hr|now apply Htruthy].
      * discriminate.
      * intros _. exists props, elements. split; [exact Hp|].
        split; [exact Hs|].
        apply Forall2_map_r. apply carriesReasoning_element.
  - intros props Hfalsy. eexists. split; [reflexivity|].
    simpl. unfold or_else. now rewrite Hfalsy.
  - intros m c. reflexivity.
  - intros props Htrue. eexists. split; [reflexivity|].
    simpl. unfold or_else. now rewrite Htrue.
Qed.

Lemma reasoning_truthy_by_path_witness :
  (exists s,
      toSuggestion (Obj [(str "reasoning", Str [])]) = Normal s /\
      reasoning s = Str (str "No reasoning provided")) /\
  (exists s,
      toSuggestion (Obj [(str "reasoning", Arr [])]) = Normal s /\
      reasoning s = Arr []).
Proof.
  split.
  - apply (proj1 (proj2 (reasoning_truthy_by_path client []))
             [(str "reasoning", Str [])]).
    reflexivity.
  - apply (proj2 (proj2 (proj2 (reasoning_truthy_by_path client [])))
             [(str "reasoning", Arr [])]).
    reflexivity.
Defined.

End ResponseClaims.

(** ** Properties of [buildPrompt] *)

Section PromptFacts.
Import JS GeminiClient.

Context {number : Type} (Number_toString : number -> jsstring).

Lemma join_In (sep : jsstring) (l : list jsstring) (x : jsstring) :
  In x l -> contains (join sep l) x.
Proof.
  induction l as [|y l IH]; [intros []|].
  intros [->|Hin].
  - destruct l as [|z l].
    + exists [], []. simpl. now rewrite app_nil_r.
    + exists [], (sep ++ join sep (z :: l)). reflexivity.
  - destruct (IH Hin) as (before & after & E).
    destruct l as [|z l]; [destruct Hin|].
    exists (y ++ sep ++ before), after.
    change (join sep (y :: z :: l)) with (y ++ sep ++ join sep (z :: l)).
    rewrite E. now rewrite <- !app_assoc.
Qed.

Lemma contains_app (hay needle before after : jsstring) :
  contains hay needle -> contains (before ++ hay ++ after) needle.
Proof.
  intros (b & a & ->). exists (before ++ b), (a ++ after).
  now rewrite <- !app_assoc.
Qed.

Lemma describeDiff_keepChanges (diff : GitDiff number) :
  describeDiff Number_toString (keepChanges 5 diff)
  = describeDiff Number_toString diff.
Proof.
  unfold describeDiff, slice0.
  change (changes (keepChanges 5 diff)) with (firstn 5 (changes diff)).
  rewrite firstn_firstn. reflexivity.
Qed.

Lemma changesDescription_keepChanges (diffs : list (GitDiff number)) :
  changesDescription Number_toString (map (keepChanges 5) diffs)
  = changesDescription Number_toString diffs.
Proof.
  unfold changesDescription. rewrite map_map. f_equal.
  apply map_ext. intros d. apply describeDiff_keepChanges.
Qed.

Lemma recentCommitsContext_firstn (recentCommits : list jsstring) :
  recentCommitsContext (firstn 5 recentCommits)
  = recentCommitsContext recentCommits.
Proof.
  unfold recentCommitsContext, slice0. rewrite firstn_firstn.
  destruct recentCommits; reflexivity.
Qed.

(** The prompt around the two parts that vary with the diffs and the recent
    commits. *)
Lemma buildPrompt_parts this diffs config branchName :
  exists rest,
    forall recentCommits,
      buildPrompt Number_toString this diffs config recentCommits branchName
      = (str "You are an expert developer assistant that generates high-quality git commit messages."
           ++ nl ++ nl ++ str "CONTEXT:" ++ nl
           ++ str "Branch: " ++ branchName ++ nl)
        ++ recentCommitsContext recentCommits
        ++ (nl ++ nl ++ str "CHANGES TO COMMIT:" ++ nl)
        ++ changesDescription Number_toString diffs
        ++ (nl ++ nl ++ str "REQUIREMENTS:")
        ++ rest.
Proof.
  eexists. intros recentCommits. unfold buildPrompt.
  cbn [join]. cbn [app]. rewrite <- !app_assoc. reflexivity.
Qed.

Lemma contains_fourth (a b c hay d needle : jsstring) :
  contains hay needle -> contains (a ++ b ++ c ++ hay ++ d) needle.
Proof.
  intros H. rewrite (app_assoc b), (app_assoc a).
  now apply contains_app.
Qed.

End PromptFacts.

(** ** The claims about [buildPrompt] *)

Section PromptClaims.
Import JS GeminiClient.

(** C6: the prompt holds, for each diff, the lines "File: <file>
    (+<additions>/-<deletions>)", "Status: <status>", "Key changes:" and the
    first five change lines of the diff, each after two spaces; change lines
    after the fifth have no part in the prompt: it is the prompt of the diffs
    cut down to five change lines each.  On the sample diff of seven change
    lines the fifth is in the prompt and the sixth is not. *)
Theorem prompt_describes_each_diff {number : Type}
  (Number_toString : number -> jsstring) (this : GeminiClient.t)
  (diffs : list (GitDiff number)) (config : Config number)
  (recentCommits : list jsstring) (branchName : jsstring) :
  Forall
    (fun diff =>
       contains
         (buildPrompt Number_toString this diffs config recentCommits branchName)
         (str "File: " ++ file diff ++ str " "
            ++ str "(+" ++ Number_toString (additions diff)
            ++ str "/-" ++ Number_toString (deletions diff) ++ str ")" ++ nl
            ++ str "Status: " ++ statusText (status diff) ++ nl
            ++ str "Key changes:" ++ nl
            ++ str "  " ++ join (nl ++ str "  ") (firstn 5 (changes diff))))
    diffs /\
  buildPrompt Number_toString this diffs config recentCommits branchName
  = buildPrompt Number_toString this (map (keepChanges 5) diffs) config
      recentCommits branchName /\
  Forall (fun diff => length (changes diff) <= 5) (map (keepChanges 5) diffs) /\
  includesText (str "  Added: 5")
    (buildPrompt decimal client [sampleDiff] sampleConfig [] (str "main"))
  = true /\
  includesText (str "Added: 6")
    (buildPrompt decimal client [sampleDiff] sampleConfig [] (str "main"))
  = false.
Proof.
  split; [|split; [|split; [|split]]];
    [| | |vm_compute; reflexivity|vm_compute; reflexivity].
  - apply Forall_forall. intros diff Hin.
    destruct (buildPrompt_parts Number_toString this diffs config branchName)
      as (rest & Hparts).
    rewrite Hparts.
    apply contains_fourth.
    assert (E : describeDiff Number_toString diff
                = str "File: " ++ file diff ++ str " "
                    ++ str "(+" ++ Number_toString (additions diff)
                    ++ str "/-" ++ Number_toString (deletions diff)
                    ++ str ")" ++ nl
                    ++ str "Status: " ++ statusText (status diff) ++ nl
                    ++ str "Key changes:" ++ nl
                    ++ str "  "
                    ++ join (nl ++ str "  ") (firstn 5 (changes diff))).
    { unfold describeDiff, slice0. cbn [join].
      rewrite <- !app_assoc. reflexivity. }
    rewrite <- E. unfold changesDescription.
    apply join_In. now apply in_map.
  - destruct (buildPrompt_parts Number_toString this diffs config branchName)
      as (rest & Hparts).
    unfold buildPrompt.
    now rewrite changesDescription_keepChanges.
  - apply Forall_forall. intros diff Hin.
    apply in_map_iff in Hin as (d & <- & _).
    change (changes (keepChanges 5 d)) with (firstn 5 (changes d)).
    rewrite length_firstn. lia.
Qed.

(** C7: the prompt is the same text around the recent-commits block for
    every list of recent commits; for the empty list the block is empty, so
    neither the heading nor anything else stands in its place; for a
    non-empty list the block is the heading and the first five entries, in
    their order, each on a line after "- ".  On the sample data the heading is
    absent for the empty list, and of seven commits the fifth is in the
    prompt and the sixth is not. *)
Theorem recent_commits_block {number : Type}
  (Number_toString : number -> jsstring) (this : GeminiClient.t)
  (diffs : list (GitDiff number)) (config : Config number)
  (branchName : jsstring) :
  (exists after,
     forall recentCommits,
       buildPrompt Number_toString this diffs config recentCommits branchName
       = (str "You are an expert developer assistant that generates high-quality git commit messages."
            ++ nl ++ nl ++ str "CONTEXT:" ++ nl
            ++ str "Branch: " ++ branchName ++ nl)
         ++ recentCommitsContext recentCommits
         ++ (nl ++ nl ++ str "CHANGES TO COMMIT:" ++ nl)
         ++ after) /\
  recentCommitsContext [] = [] /\
  (forall c recentCommits,
     recentCommitsContext (c :: recentCommits)
     = str "Recent commits for context:" ++ nl
         ++ join nl (map (fun c => str "- " ++ c) (firstn 5 (c :: recentCommits)))
         ++ nl ++ nl) /\
  (forall recentCommits,
     buildPrompt Number_toString this diffs config recentCommits branchName
     = buildPrompt Number_toString this diffs config (firstn 5 recentCommits)
         branchName) /\
  includesText (str "Recent commits for context:")
    (buildPrompt decimal client [sampleDiff] sampleConfig [] (str "main"))
  = false /\
  includesText (str "Recent commits for context:" ++ nl ++ str "- c1" ++ nl
                  ++ str "- c2" ++ nl ++ str "- c3" ++ nl ++ str "- c4" ++ nl
                  ++ str "- c5" ++ nl ++ nl)
    (buildPrompt decimal client [sampleDiff] sampleConfig sevenCommits
       (str "main"))
  = true /\
  includesText (str "c6")
    (buildPrompt decimal client [sampleDiff] sampleConfig sevenCommits
       (str "main"))
  = false.
Proof.
  split; [|split; [|split; [|split; [|split; [|split]]]]].
  - destruct (buildPrompt_parts Number_toString this diffs config branchName)
      as (rest & Hparts).
    exists (changesDescription Number_toString diffs
              ++ (nl ++ nl ++ str "REQUIREMENTS:") ++ rest).
    exact Hparts.
  - reflexivity.
  - intros c recentCommits. reflexivity.
  - intros recentCommits. unfold buildPrompt.
    now rewrite recentCommitsContext_firstn.
  - vm_compute. reflexivity.
  - vm_compute. reflexivity.
  - vm_compute. reflexivity.
Qed.

(** C8: the prompt is a function of the four arguments alone: two calls with
    equal diffs, configuration, recent commits and branch name give the same
    string, whatever the state of the client each is made on. *)
Theorem buildPrompt_deterministic {number : Type}
  (Number_toString : number -> jsstring) (this1 this2 : GeminiClient.t)
  (diffs1 diffs2 : list (GitDiff number)) (config1 config2 : Config number)
  (recentCommits1 recentCommits2 : list jsstring)
  (branchName1 branchName2 : jsstring) :
  diffs1 = diffs2 -> config1 = config2 ->
  recentCommits1 = recentCommits2 -> branchName1 = branchName2 ->
  buildPrompt Number_toString this1 diffs1 config1 recentCommits1 branchName1
  = buildPrompt Number_toString this2 diffs2 config2 recentCommits2 branchName2.
Proof.
  intros -> -> -> ->. reflexivity.
Qed.

Lemma buildPrompt_deterministic_witness :
  buildPrompt decimal client [sampleDiff] sampleConfig sevenCommits (str "main")
  = buildPrompt decimal (constructor (str "another key")) [sampleDiff]
      sampleConfig sevenCommits (str "main").
Proof.
  apply buildPrompt_deterministic; reflexivity.
Defined.

(** C1: [parseResponse] returns a list of suggestions for every response,
    whatever [JSON.parse] or the map callback throws inside its [try] block;
    [buildPrompt], which calls nothing that throws, gives a string for every
    argument, an empty list of diffs leaving the changes section empty and an
    empty response giving no suggestion. *)
Theorem core_never_throws :
  (forall (this : GeminiClient.t) (response : jsstring),
      exists suggestions, parseResponse this response = Normal suggestions) /\
  (forall (number : Type) (Number_toString : number -> jsstring)
          (this : GeminiClient.t) (diffs : list (GitDiff number))
          (config : Config number) (recentCommits : list jsstring)
          (branchName : jsstring),
      exists prompt : jsstring,
        buildPrompt Number_toString this diffs config recentCommits branchName
        = prompt) /\
  (forall (number : Type) (Number_toString : number -> jsstring)
          (this : GeminiClient.t) (config : Config number)
          (recentCommits : list jsstring) (branchName : jsstring),
      contains
        (buildPrompt Number_toString this [] config recentCommits branchName)
        (str "CHANGES TO COMMIT:" ++ nl ++ nl ++ nl ++ str "REQUIREMENTS:")) /\
  (forall this : GeminiClient.t, parseResponse this [] = Normal []).
Proof.
  split; [|split; [|split]].
  - intros this response. rewrite parseResponse_eq. eauto.
  - intros. eauto.
  - intros number Number_toString this config recentCommits branchName.
    destruct (buildPrompt_parts Number_toString this [] config branchName)
      as (rest & Hparts).
    rewrite Hparts.
    exists ((str "You are an expert developer assistant that generates high-quality git commit messages."
               ++ nl ++ nl ++ str "CONTEXT:" ++ nl
               ++ str "Branch: " ++ branchName ++ nl)
            ++ recentCommitsContext recentCommits ++ nl ++ nl), rest.
    unfold changesDescription. cbn [map join]. cbn [app].
    rewrite <- !app_assoc. reflexivity.
  - intros this. vm_compute. reflexivity.
Qed.

End PromptClaims.

(** ** Strings: equality, [split] and [trim] *)

Section StringFacts.
Import JS JSONFacts.

Lemma eqb_string_eq (a b : jsstring) : eqb_string a b = true <-> a = b.
Proof.
  revert b; induction a as [|x a IH]; intros [|y b]; simpl;
    try (split; [discriminate|discriminate]); [split; reflexivity|].
  rewrite andb_true_iff, N.eqb_eq, IH. split.
  - intros [-> ->]. reflexivity.
  - intros H; inversion H. split; reflexivity.
Qed.

Lemma eqb_string_refl (a : jsstring) : eqb_string a a = true.
Proof. now apply eqb_string_eq. Qed.

Lemma eqb_string_neq (a b : jsstring) : eqb_string a b = false <-> a <> b.
Proof.
  rewrite <- eqb_string_eq. destruct (eqb_string a b); split;
    congruence.
Qed.

Lemma split_nonempty (sep : char16) (s : jsstring) : split sep s <> [].
Proof.
  induction s as [|c s IH]; simpl; [discriminate|].
  destruct (c =? sep)%N; [discriminate|].
  destruct (split sep s); [now destruct IH|discriminate].
Qed.

Lemma split_app (sep : char16) (a b : jsstring) :
  split sep (a ++ sep :: b) = split sep a ++ split sep b.
Proof.
  induction a as [|c a IH]; simpl.
  - now rewrite N.eqb_refl.
  - destruct (c =? sep)%N; [now rewrite IH|].
    rewrite IH. pose proof (split_nonempty sep a) as Hne.
    destruct (split sep a); [now destruct Hne|reflexivity].
Qed.

Lemma split_single (sep : char16) (s : jsstring) :
  includes sep s = false -> split sep s = [s].
Proof.
  unfold includes. induction s as [|c s IH]; simpl; [reflexivity|].
  intros H. apply orb_false_iff in H as [Hc Hs].
  rewrite N.eqb_sym, Hc, (IH Hs). reflexivity.
Qed.

Lemma split_pieces (sep : char16) (s : jsstring) :
  Forall (fun piece => includes sep piece = false) (split sep s).
Proof.
  unfold includes. induction s as [|c s IH]; simpl.
  - constructor; [reflexivity|constructor].
  - destruct (c =? sep)%N eqn:Hc.
    + constructor; [reflexivity|exact IH].
    + pose proof (split_nonempty sep s) as Hne.
      destruct (split sep s) as [|piece pieces]; [now destruct Hne|].
      inversion IH; subst. constructor; [|assumption].
      simpl. now rewrite N.eqb_sym, Hc.
Qed.

Lemma trimStart_parts (s : jsstring) :
  exists a, s = a ++ trimStart s /\ forallb isWhiteSpace a = true /\
            firstIs isWhiteSpace (trimStart s) = false.
Proof.
  induction s as [|c s (a & Hs & Ha & Hf)]; simpl.
  - now exists [].
  - destruct (isWhiteSpace c) eqn:Hc.
    + exists (c :: a). split; [now rewrite Hs at 1|].
      split; [simpl; now rewrite Hc|exact Hf].
    + exists []. split; [reflexivity|]. split; [reflexivity|exact Hc].
Qed.

Lemma trimEnd_parts (s : jsstring) :
  exists b, s = trimEnd s ++ b /\ forallb isWhiteSpace b = true /\
            (trimEnd s = [] \/ endsWithToken (trimEnd s)).
Proof.
  unfold trimEnd.
  destruct (trimStart_parts (rev s)) as (a & Hs & Ha & Hf).
  exists (rev a). split; [|split].
  - rewrite <- rev_app_distr, <- Hs. now rewrite rev_involutive.
  - rewrite forallb_forall in *. intros x Hx. apply Ha. now apply in_rev.
  - destruct (trimStart (rev s)) as [|c t]; [now left|right].
    exists (rev t), c. split; [reflexivity|exact Hf].
Qed.

Lemma firstIs_prefix (p : char16 -> bool) (u b : jsstring) :
  u <> [] -> firstIs p (u ++ b) = firstIs p u.
Proof. destruct u; [now intros []|reflexivity]. Qed.

(** [trim] takes white space, and nothing else, from the two ends. *)
Lemma trim_parts (s : jsstring) :
  exists a b, s = a ++ trim s ++ b /\ forallb isWhiteSpace a = true /\
              forallb isWhiteSpace b = true /\ trimmed (trim s).
Proof.
  unfold trim.
  destruct (trimStart_parts s) as (a & Hs & Ha & Hf).
  destruct (trimEnd_parts (trimStart s)) as (b & Ht & Hb & Hend).
  exists a, b. split; [now rewrite <- Ht|]. split; [exact Ha|].
  split; [exact Hb|].
  destruct Hend as [Hnil|Hend]; [now left|right]. split; [|exact Hend].
  rewrite Ht in Hf. rewrite firstIs_prefix in Hf; [exact Hf|].
  destruct Hend as (u & c & E & _). rewrite E. now destruct u.
Qed.

Lemma trimmed_trim (u : jsstring) : trimmed u -> trim u = u.
Proof.
  intros [->|[Hf Hend]]; [reflexivity|].
  unfold trim. destruct u as [|c u]; [reflexivity|].
  simpl in Hf. simpl trimStart. rewrite Hf.
  rewrite <- (app_nil_r (c :: u)) at 1.
  now apply trimEnd_token.
Qed.

Lemma trim_idempotent (s : jsstring) : trim (trim s) = trim s.
Proof.
  destruct (trim_parts s) as (_ & _ & _ & _ & _ & H).
  now apply trimmed_trim.
Qed.

Lemma includes_app (c : char16) (a b : jsstring) :
  includes c (a ++ b) = includes c a || includes c b.
Proof. unfold includes. apply existsb_app. Qed.

Lemma includes_ws (c : char16) (a : jsstring) :
  isWhiteSpace c = false -> forallb isWhiteSpace a = true ->
  includes c a = false.
Proof.
  intros Hc Ha. unfold includes.
  induction a as [|x a IH]; simpl; [reflexivity|].
  simpl in Ha. apply andb_true_iff in Ha as [Hx Ha].
  rewrite (IH Ha), orb_false_r. apply N.eqb_neq. intros ->. congruence.
Qed.

(** A character that is not white space is in a text exactly when it is in
    the trimmed text. *)
Lemma includes_trim (c : char16) (s : jsstring) :
  isWhiteSpace c = false -> includes c (trim s) = includes c s.
Proof.
  intros Hc. destruct (trim_parts s) as (a & b & Hs & Ha & Hb & _).
  rewrite Hs at 2. rewrite !includes_app.
  now rewrite (includes_ws c a Hc Ha), (includes_ws c b Hc Hb), orb_false_r.
Qed.

Lemma excludes_trim (c : char16) (s : jsstring) :
  includes c s = false -> includes c (trim s) = false.
Proof.
  destruct (trim_parts s) as (a & b & Hs & _). intros H.
  rewrite Hs, !includes_app in H.
  apply orb_false_iff in H as [_ H]. now apply orb_false_iff in H as [H _].
Qed.

End StringFacts.

(** ** Further properties of [parseResponse] *)

Section ResponseFurther.
Import JS GeminiClient.

(** X1: a response that is a JSON text and is answered by the structured
    path gets the same suggestions as every other JSON text of the same
    value: line breaks, indentation and the other white space between the
    tokens do not count. *)
Theorem structured_result_ignores_layout (this : GeminiClient.t)
  (response1 response2 : jsstring) (v : value) :
  JSON_parse response1 = Normal v ->
  JSON_parse response2 = Normal v ->
  fallsBack response1 = false ->
  fallsBack response2 = false /\
  parseResponse this response1 = parseResponse this response2.
Proof.
  intros H1 H2 Hf.
  apply JSONFacts.JSON_parse_cleanResponse in H1, H2.
  assert (E : structured response1 = structured response2)
    by now rewrite (structured_of_value _ _ H1), (structured_of_value _ _ H2).
  split.
  - unfold fallsBack in *. now rewrite <- E.
  - rewrite !parseResponse_eq. rewrite <- E.
    unfold fallsBack in Hf.
    destruct (structured response1) as [[l|]|e]; try discriminate.
    reflexivity.
Qed.

Lemma structured_result_ignores_layout_witness :
  fallsBack layoutResponse = false /\
  parseResponse client
    (str "{" ++ quoted "suggestions" ++ str ":[{" ++ quoted "message"
       ++ str ":" ++ quoted "fix: typo" ++ str "," ++ quoted "confidence"
       ++ str ":95," ++ quoted "reasoning" ++ str ":" ++ quoted "short"
       ++ str "}]}")
  = parseResponse client layoutResponse.
Proof.
  eapply structured_result_ignores_layout.
  - vm_compute. reflexivity.
  - vm_compute. reflexivity.
  - vm_compute. reflexivity.
Defined.

(** X2: one [null] among the elements of [suggestions] sends the whole
    response to the fallback: the records beside it are not returned. *)
Theorem null_element_falls_back (this : GeminiClient.t)
  (response : jsstring) props elements :
  JSON_parse response = Normal (Obj props) ->
  findProperty props (str "suggestions") = Some (Arr elements) ->
  In Null elements ->
  fallsBack response = true /\
  parseResponse this response = Normal (fallback response).
Proof.
  intros Hp Hs Hnull.
  apply JSONFacts.JSON_parse_cleanResponse in Hp.
  assert (Hf : fallsBack response = true).
  { unfold fallsBack. rewrite (structured_of_value _ _ Hp). simpl.
    rewrite getOwnProperty_find, Hs. simpl.
    destruct (Array_map_null elements Hnull) as (e & ->). reflexivity. }
  split; [exact Hf|]. now apply parseResponse_fallback.
Qed.

Lemma null_element_falls_back_witness :
  fallsBack nullElementResponse = true /\
  parseResponse client nullElementResponse
  = Normal (fallback nullElementResponse).
Proof.
  apply (null_element_falls_back client _
           [(str "suggestions", Arr [Obj [(str "message", Str (str "x"))]; Null])]
           [Obj [(str "message", Str (str "x"))]; Null]).
  - vm_compute. reflexivity.
  - vm_compute. reflexivity.
  - right. left. reflexivity.
Defined.

(** X3: when the response is a JSON object whose [suggestions] is an array
    without [null], every element gives one suggestion, in order, with
    nothing left out, merged or capped: a record gives its truthy fields or
    the defaults, and an element that is not a record (a number, a string, a
    boolean, an array) gives the suggestion made of the three defaults. *)
Theorem every_element_gives_a_suggestion (this : GeminiClient.t)
  (response : jsstring) props elements :
  JSON_parse response = Normal (Obj props) ->
  findProperty props (str "suggestions") = Some (Arr elements) ->
  ~ In Null elements ->
  parseResponse this response = Normal (map suggestionOfElement elements).
Proof.
  intros Hp Hs Hn.
  assert (Hu : ~ In Undefined elements).
  { intros Hin. apply JSON_parse_defined in Hp. simpl in Hp.
    apply (findProperty_defined _ _ _ Hp) in Hs. simpl in Hs.
    rewrite forallb_forall in Hs. now apply Hs in Hin. }
  apply JSONFacts.JSON_parse_cleanResponse in Hp.
  rewrite parseResponse_eq, (structured_of_value _ _ Hp). simpl.
  rewrite getOwnProperty_find, Hs. simpl.
  now rewrite Array_map_elements.
Qed.

Lemma every_element_gives_a_suggestion_witness :
  parseResponse client
    (str "{" ++ quoted "suggestions" ++ str ":[7,{" ++ quoted "message"
       ++ str ":" ++ quoted "x" ++ str "},[],true]}")
  = Normal (map suggestionOfElement
              [Num 7; Obj [(str "message", Str (str "x"))]; Arr [];
               Bool true]).
Proof.
  apply (every_element_gives_a_suggestion client _
           [(str "suggestions",
             Arr [Num 7; Obj [(str "message", Str (str "x"))]; Arr [];
                  Bool true])]).
  - vm_compute. reflexivity.
  - vm_compute. reflexivity.
  - intros [H|[H|[H|[H|[]]]]]; discriminate H.
Defined.

(** X4: on the fallback path every message is one trimmed line of the
    response: it is not empty, has no white space at either end, holds a
    colon and holds no line feed. *)
Theorem fallback_messages_are_trimmed_lines (this : GeminiClient.t)
  (response : jsstring) :
  fallsBack response = true ->
  exists l,
    parseResponse this response = Normal l /\
    Forall (fun s => exists m,
                message s = Str m /\ m <> [] /\ trimmed m /\
                includes 58%N m = true /\ includes 10%N m = false) l.
Proof.
  intros Hf. exists (fallback response).
  split; [now apply parseResponse_fallback|].
  rewrite fallback_eq. apply Forall_firstn.
  unfold extractedLines, nonBlankLines.
  apply Forall_forall. intros s Hs.
  apply in_map_iff in Hs as (line & <- & Hl).
  apply filter_In in Hl as (Hl & Hlooks).
  apply filter_In in Hl as (Hline & Hblank).
  exists (trim line). split; [reflexivity|].
  split; [now apply trimmed_line_nonempty|].
  split; [now destruct (trim_parts line) as (_ & _ & _ & _ & _ & H)|].
  split.
  - rewrite includes_trim by reflexivity.
    unfold looksLikeMessage in Hlooks.
    apply andb_true_iff in Hlooks as [Hlooks _].
    now apply andb_true_iff in Hlooks as [Hlooks _].
  - apply excludes_trim.
    pose proof (split_pieces 10%N response) as Hp.
    rewrite Forall_forall in Hp. now apply Hp.
Qed.

Lemma fallback_messages_are_trimmed_lines_witness :
  exists l,
    parseResponse client proseResponse = Normal l /\
    Forall (fun s => exists m,
                message s = Str m /\ m <> [] /\ trimmed m /\
                includes 58%N m = true /\ includes 10%N m = false) l.
Proof.
  apply fallback_messages_are_trimmed_lines. vm_compute. reflexivity.
Defined.

End ResponseFurther.

(** ** Further properties of [buildPrompt] *)

Section PromptFurther.
Import JS GeminiClient.

Context {number : Type} (Number_toString : number -> jsstring).

(** X5: the prompt is made of the diffs, the recent commits, the branch name
    and four fields of the configuration; the API key and the state of the
    client have no part in it, so the key is never sent inside the prompt. *)
Theorem prompt_ignores_the_api_key (this1 this2 : GeminiClient.t)
  (diffs : list (GitDiff number)) (config1 config2 : Config number)
  (recentCommits : list jsstring) (branchName : jsstring) :
  conventionalCommits config1 = conventionalCommits config2 ->
  maxLength config1 = maxLength config2 ->
  includeBody config1 = includeBody config2 ->
  customPrompt config1 = customPrompt config2 ->
  buildPrompt Number_toString this1 diffs config1 recentCommits branchName
  = buildPrompt Number_toString this2 diffs config2 recentCommits branchName.
Proof.
  intros Hc Hm Hb Hp. unfold buildPrompt, additionalInstructions.
  now rewrite Hc, Hm, Hb, Hp.
Qed.

(** X6: a custom prompt is put after everything else: the prompt is the one
    the same configuration gives without a custom prompt, followed by a line
    feed, the heading ADDITIONAL INSTRUCTIONS:, a line feed and the custom
    prompt as it is.  An empty custom prompt is the same as none. *)
Theorem custom_prompt_is_appended (this : GeminiClient.t)
  (diffs : list (GitDiff number)) (config plain : Config number)
  (recentCommits : list jsstring) (branchName : jsstring) :
  conventionalCommits plain = conventionalCommits config ->
  maxLength plain = maxLength config ->
  includeBody plain = includeBody config ->
  customPrompt plain = None ->
  buildPrompt Number_toString this diffs config recentCommits branchName
  = buildPrompt Number_toString this diffs plain recentCommits branchName
      ++ match customPrompt config with
         | Some (c :: text) =>
             nl ++ str "ADDITIONAL INSTRUCTIONS:" ++ nl ++ c :: text
         | Some [] | None => []
         end.
Proof.
  intros Hc Hm Hb Hp.
  assert (Ha : additionalInstructions config
               = match customPrompt config with
                 | Some (c :: text) =>
                     nl ++ str "ADDITIONAL INSTRUCTIONS:" ++ nl ++ c :: text
                 | Some [] | None => []
                 end).
  { unfold additionalInstructions.
    destruct (customPrompt config) as [[|c text]|]; reflexivity. }
  transitivity
    (buildPrompt Number_toString this diffs plain recentCommits branchName
       ++ additionalInstructions config);
    [clear Ha|f_equal; exact Ha].
  unfold buildPrompt. rewrite Hc, Hm, Hb.
  unfold additionalInstructions at 2. rewrite Hp.
  generalize (additionalInstructions config) as extra. intros extra.
  cbn [join]. rewrite <- !app_assoc. rewrite app_nil_l. reflexivity.
Qed.

End PromptFurther.

Section PromptExamples.
Import JS GeminiClient.

Lemma prompt_ignores_the_api_key_witness :
  buildPrompt decimal client [sampleDiff] sampleConfig sevenCommits
    (str "main")
  = buildPrompt decimal
      (GeminiClient.constructor (str "another key")) [sampleDiff]
      {| geminiApiKey := str "another key"; conventionalCommits := true;
         maxLength := 72%N; includeBody := false; customPrompt := None |}
      sevenCommits (str "main").
Proof.
  apply prompt_ignores_the_api_key; reflexivity.
Defined.

Lemma custom_prompt_is_appended_witness :
  buildPrompt decimal client [sampleDiff]
    {| geminiApiKey := str "k"; conventionalCommits := true;
       maxLength := 72%N; includeBody := false;
       customPrompt := Some (str "Mention the ticket.") |}
    sevenCommits (str "main")
  = buildPrompt decimal client [sampleDiff]
      {| geminiApiKey := str "k"; conventionalCommits := true;
         maxLength := 72%N; includeBody := false;
         customPrompt := None |}
      sevenCommits (str "main")
      ++ nl ++ str "ADDITIONAL INSTRUCTIONS:" ++ nl
      ++ str "Mention the ticket.".
Proof.
  apply (custom_prompt_is_appended decimal client [sampleDiff]
           {| geminiApiKey := str "k"; conventionalCommits := true;
              maxLength := 72%N; includeBody := false;
              customPrompt := Some (str "Mention the ticket.") |});
    reflexivity.
Defined.

End PromptExamples.

(** ** The call to the model *)

Section CallFacts.
Import JS Effect GeminiClient GeminiCall.

Context {E number : Type} (Number_toString : number -> jsstring)
  (String_of : E -> jsstring)
  (generateContent : GenerativeModel -> jsstring -> result E jsstring)
  (ofExn : exn -> E).

(** X7: [generateCommitMessage] returns whenever the model answers, with
    what [parseResponse] makes of the answer, whatever the answer is; it
    throws only when the call to the model throws, and then an [Error] the
    message of which is Gemini API error: and the thrown value as a
    string. *)
Theorem generateCommitMessage_outcome (this : GeminiClient.t)
  (diffs : list (GitDiff number)) (config : Config number)
  (recentCommits : list jsstring) (branchName : jsstring) :
  let prompt :=
    buildPrompt Number_toString this diffs config recentCommits branchName in
  let outcome :=
    generateCommitMessage Number_toString String_of generateContent ofExn
      this diffs config recentCommits branchName in
  (exists text suggestions,
      generateContent (model this) prompt = Returns text /\
      parseResponse this text = Normal suggestions /\
      outcome = Returns suggestions)
  \/
  (exists error,
      generateContent (model this) prompt = Throws error /\
      outcome
      = Throws (Error (str "Gemini API error: "
                         ++ describe String_of error))).
Proof.
  intros prompt outcome. subst outcome. unfold generateCommitMessage.
  fold prompt.
  destruct (generateContent (model this) prompt) as [text|error].
  - left. exists text. eexists. split; [reflexivity|].
    split; [apply parseResponse_eq|].
    cbn [andThen catch]. rewrite parseResponse_eq. reflexivity.
  - right. exists error. split; reflexivity.
Qed.

End CallFacts.

(** ** Properties of the analyzer *)

Section AnalyzerFacts.
Import JS Effect GitAnalyzer.

Lemma firstn_app_firstn {A : Type} (n : nat) (x y : list A) :
  firstn n (firstn n x ++ firstn n y) = firstn n (x ++ y).
Proof.
  transitivity (firstn n (x ++ firstn n y)).
  - generalize (firstn n y) as z. intros z.
    revert x. induction n as [|n IH]; intros x; [reflexivity|].
    destruct x as [|a x]; [reflexivity|].
    cbn [firstn app]. f_equal. apply IH.
  - rewrite !firstn_app, firstn_firstn. do 2 f_equal. lia.
Qed.

End AnalyzerFacts.

Section DiffChanges.
Import JS Effect GitAnalyzer.

Lemma changes_fold (lines : list jsstring) (init : list jsstring) :
  fold_left
    (fun changes line =>
       if startsWith 43%N line && negb (beginsWith (str "+++") line) then
         changes ++ [str "Added: " ++ trim (substring1 line)]
       else if startsWith 45%N line && negb (beginsWith (str "---") line)
       then changes ++ [str "Removed: " ++ trim (substring1 line)]
       else changes)
    lines init
  = init ++ flat_map changeOfLine lines.
Proof.
  revert init. induction lines as [|line lines IH]; intros init.
  - cbn [fold_left flat_map]. now rewrite app_nil_r.
  - cbn [fold_left flat_map]. rewrite IH. unfold changeOfLine, substring1.
    destruct (startsWith 43%N line && negb (beginsWith (str "+++") line));
      [now rewrite <- app_assoc|].
    destruct (startsWith 45%N line && negb (beginsWith (str "---") line));
      [now rewrite <- app_assoc|].
    now rewrite app_nil_l.
Qed.

Lemma parseDiffChanges_lines (diff : jsstring) :
  parseDiffChanges diff
  = firstn 10 (flat_map changeOfLine (split 10%N diff)).
Proof.
  unfold parseDiffChanges, slice0. now rewrite changes_fold.
Qed.

Lemma changeOfLine_shape (line : jsstring) :
  includes 10%N line = false ->
  Forall (fun entry =>
            exists text,
              (entry = str "Added: " ++ text \/
               entry = str "Removed: " ++ text) /\
              trimmed text /\ includes 10%N text = false)
    (changeOfLine line).
Proof.
  intros Hl.
  assert (Ht : trimmed (trim (tl line)) /\
               includes 10%N (trim (tl line)) = false).
  { split.
    - now destruct (trim_parts (tl line)) as (_ & _ & _ & _ & _ & H).
    - apply excludes_trim. destruct line as [|c line]; [reflexivity|].
      cbn [tl]. cbn [includes existsb] in Hl.
      now apply orb_false_iff in Hl as [_ Hl]. }
  unfold changeOfLine.
  destruct (startsWith 43%N line && negb (beginsWith (str "+++") line)).
  - constructor; [|constructor]. exists (trim (tl line)).
    split; [now left|exact Ht].
  - destruct (startsWith 45%N line && negb (beginsWith (str "---") line)).
    + constructor; [|constructor]. exists (trim (tl line)).
      split; [now right|exact Ht].
    + constructor.
Qed.

(** X8: [parseDiffChanges] gives at most ten entries, and each entry is
    Added: or Removed: followed by one line of text without white space at
    either end. *)
Theorem parseDiffChanges_entries (diff : jsstring) :
  length (parseDiffChanges diff) <= 10 /\
  Forall (fun entry =>
            exists text,
              (entry = str "Added: " ++ text \/
               entry = str "Removed: " ++ text) /\
              trimmed text /\ includes 10%N text = false)
    (parseDiffChanges diff).
Proof.
  rewrite parseDiffChanges_lines. split.
  - rewrite length_firstn. lia.
  - apply Forall_firstn. apply Forall_flat_map.
    pose proof (split_pieces 10%N diff) as Hp.
    eapply Forall_impl; [|exact Hp].
    intros line Hl. now apply changeOfLine_shape.
Qed.

(** X9: the changes of two texts joined by a line feed are the first ten of
    the changes of the first followed by the changes of the second. *)
Theorem parseDiffChanges_of_two_parts (diff1 diff2 : jsstring) :
  parseDiffChanges (diff1 ++ nl ++ diff2)
  = firstn 10 (parseDiffChanges diff1 ++ parseDiffChanges diff2).
Proof.
  rewrite !parseDiffChanges_lines.
  change (diff1 ++ nl ++ diff2) with (diff1 ++ 10%N :: diff2).
  now rewrite split_app, flat_map_app, firstn_app_firstn.
Qed.

(** X10: a line of three plus signs or of three minus signs onward gives no
    entry.  So an added line the text of which begins with two plus signs,
    and a removed line the text of which begins with two minus signs, are
    left out like the two header lines of a file: the changes are those of
    the diff without the line. *)
Theorem line_of_three_signs_is_left_out (sign : char16)
  (before text after : jsstring) :
  sign = 43%N \/ sign = 45%N ->
  includes 10%N text = false ->
  parseDiffChanges
    (before ++ nl ++ (sign :: sign :: sign :: text) ++ nl ++ after)
  = parseDiffChanges (before ++ nl ++ after).
Proof.
  intros Hs Ht. rewrite !parseDiffChanges_lines.
  change (before ++ nl ++ (sign :: sign :: sign :: text) ++ nl ++ after)
    with (before ++ 10%N :: (sign :: sign :: sign :: text) ++ 10%N :: after).
  change (before ++ nl ++ after) with (before ++ 10%N :: after).
  rewrite !split_app, !flat_map_app.
  rewrite (split_single 10%N (sign :: sign :: sign :: text)).
  - destruct Hs as [-> | ->]; reflexivity.
  - destruct Hs as [-> | ->]; exact Ht.
Qed.

Lemma line_of_three_signs_is_left_out_witness :
  parseDiffChanges
    (str "+a" ++ nl ++ (43%N :: 43%N :: 43%N :: str "i;") ++ nl ++ str "-b")
  = parseDiffChanges (str "+a" ++ nl ++ str "-b").
Proof.
  apply line_of_three_signs_is_left_out; [now left|reflexivity].
Defined.

End DiffChanges.

(** ** Properties of [getStagedChanges] *)

Section StagedChanges.
Import JS Effect GitAnalyzer.

Context {E number : Type} (zero : number) (String_of : E -> jsstring).

Lemma analyzeFiles_fold (git : SimpleGit.t E number) (st : StatusResult.t)
  (files : list jsstring) (init : list (GitDiff number)) :
  fold_left
    (fun diffs name =>
       match analyzeFile zero git st name with
       | Returns d => diffs ++ [d]
       | Throws _ => diffs
       end)
    files init
  = init
      ++ flat_map (fun name =>
                     match analyzeFile zero git st name with
                     | Returns d => [d]
                     | Throws _ => []
                     end) files.
Proof.
  revert init. induction files as [|name files IH]; intros init.
  - cbn [fold_left flat_map]. now rewrite app_nil_r.
  - cbn [fold_left flat_map]. rewrite IH.
    destruct (analyzeFile zero git st name);
      [now rewrite <- app_assoc|reflexivity].
Qed.

Lemma analyzeFile_cases (git : SimpleGit.t E number) (st : StatusResult.t)
  (name : jsstring) :
  (analysable git name = true /\
   exists d, analyzeFile zero git st name = Returns d /\ file d = name /\
             length (changes d) <= 10 /\ status d = getFileStatus name st)
  \/ (analysable git name = false /\
      exists e, analyzeFile zero git st name = Throws e).
Proof.
  unfold analysable, analyzeFile.
  destruct (SimpleGit.diff git name) as [text|e]; cbn [andThen].
  - destruct (SimpleGit.diffSummary git name) as [summary|e]; cbn [andThen].
    + left. split; [reflexivity|]. eexists. split; [reflexivity|].
      cbn [file changes status]. split; [reflexivity|].
      split; [|reflexivity].
      unfold parseDiffChanges, slice0. rewrite length_firstn. lia.
    + right. split; [reflexivity|]. now exists e.
  - right. split; [reflexivity|]. now exists e.
Qed.

Lemma analyzeFiles_files (git : SimpleGit.t E number) (st : StatusResult.t)
  (files : list jsstring) :
  map file (analyzeFiles zero git st files) = filter (analysable git) files
  /\ Forall (fun d => length (changes d) <= 10 /\
                      status d = getFileStatus (file d) st)
       (analyzeFiles zero git st files).
Proof.
  unfold analyzeFiles. rewrite analyzeFiles_fold, app_nil_l.
  induction files as [|name files [IHm IHf]]; [split; [reflexivity|constructor]|].
  cbn [flat_map filter].
  destruct (analyzeFile_cases git st name)
    as [(Ha & d & Hd & Hfile & Hlen & Hst)|(Ha & e & He)].
  - rewrite Ha, Hd. cbn [app map]. rewrite Hfile, IHm.
    split; [reflexivity|]. constructor; [|exact IHf].
    rewrite Hfile. now split.
  - rewrite Ha, He. cbn [app]. now split.
Qed.

Lemma getStagedChanges_cases (git : SimpleGit.t E number) :
  (exists st,
      SimpleGit.checkIsRepo git = Returns true /\
      SimpleGit.status git = Returns st /\ stagedFiles st <> [] /\
      getStagedChanges zero String_of git
      = Returns (analyzeFiles zero git st (stagedFiles st)))
  \/
  (exists message,
      getStagedChanges zero String_of git
      = Throws (Error (str "Git analysis failed: " ++ message)) /\
      (SimpleGit.checkIsRepo git = Returns true ->
       forall st, SimpleGit.status git = Returns st -> stagedFiles st = [])).
Proof.
  unfold getStagedChanges.
  destruct (SimpleGit.checkIsRepo git) as [[|]|e]; cbn [andThen negb catch].
  - destruct (SimpleGit.status git) as [st|e]; cbn [andThen catch].
    + destruct (stagedFiles st) as [|f files] eqn:Hfiles.
      * right. eexists. split; [reflexivity|]. intros _ st' [= <-]. exact Hfiles.
      * left. exists st. cbn [length Nat.eqb catch].
        rewrite Hfiles. repeat split; congruence.
    + right. eexists. split; [reflexivity|]. intros _ st' [=].
  - right. eexists. split; [reflexivity|]. intros [=].
  - right. eexists. split; [reflexivity|]. intros [=].
Qed.

(** X11: [getStagedChanges] returns exactly when the work tree is a
    repository, its status can be read and at least one file is staged; a
    file the diff of which cannot be read does not make it throw.  Whatever
    it throws is an [Error] with a message that begins with Git analysis
    failed: and a space. *)
Theorem getStagedChanges_returns_or_throws (git : SimpleGit.t E number) :
  ((exists diffs, getStagedChanges zero String_of git = Returns diffs)
   <-> (SimpleGit.checkIsRepo git = Returns true /\
        exists st, SimpleGit.status git = Returns st /\ stagedFiles st <> []))
  /\
  ((exists diffs, getStagedChanges zero String_of git = Returns diffs)
   \/ exists message,
        getStagedChanges zero String_of git
        = Throws (Error (str "Git analysis failed: " ++ message))).
Proof.
  destruct (getStagedChanges_cases git)
    as [(st & Hrepo & Hst & Hfiles & Hret)|(message & Hthrow & Hwhy)].
  - split; [|left; eauto]. split; [|eauto]. intros _. eauto.
  - split; [|right; eauto]. split.
    + intros (diffs & Hret). congruence.
    + intros (Hrepo & st & Hst & Hfiles). destruct Hfiles. now apply Hwhy.
Qed.

(** X12: the records [getStagedChanges] returns are those of the staged
    files the diff and the summary of which could be read, in the order
    staged, created, modified and staged; each has at most ten changes and
    the status [getFileStatus] gives its file. *)
Theorem getStagedChanges_records (git : SimpleGit.t E number)
  (st : StatusResult.t) (diffs : list (GitDiff number)) :
  SimpleGit.status git = Returns st ->
  getStagedChanges zero String_of git = Returns diffs ->
  map file diffs = filter (analysable git) (stagedFiles st) /\
  Forall (fun d => length (changes d) <= 10 /\
                   status d = getFileStatus (file d) st) diffs.
Proof.
  intros Hst Hret.
  destruct (getStagedChanges_cases git)
    as [(st' & _ & Hst' & _ & Hret')|(message & Hthrow & _)];
    [|congruence].
  assert (st' = st) as -> by congruence.
  assert (diffs = analyzeFiles zero git st (stagedFiles st)) as ->
    by congruence.
  apply analyzeFiles_files.
Qed.

Lemma filter_map_length {A B : Type} (f : A -> B) (p : B -> bool)
  (l : list A) :
  length (filter (fun a => p (f a)) l) = length (filter p (map f l)).
Proof.
  induction l as [|a l IH]; [reflexivity|].
  cbn [filter map]. destruct (p (f a)); cbn [length]; now rewrite IH.
Qed.

Lemma filter_In_length {A : Type} (p : A -> bool) (l : list A) (a : A) :
  In a l -> p a = true -> 1 <= length (filter p l).
Proof.
  intros Hin Hp.
  assert (H : In a (filter p l)) by (apply filter_In; now split).
  destruct (filter p l); [destruct H|cbn [length]; lia].
Qed.

Lemma Array_includes_In (a : list jsstring) (name : jsstring) :
  Array_includes a name = true <-> In name a.
Proof.
  unfold Array_includes. rewrite existsb_exists. split.
  - intros (x & Hin & Heq). apply eqb_string_eq in Heq. now subst.
  - intros Hin. exists name. split; [exact Hin|apply eqb_string_refl].
Qed.

(** X13: a file listed as staged and also as created or as modified is gone
    through once for each of the two lists: when its diff can be read, at
    least two of the records returned are records of this file. *)
Theorem staged_file_listed_twice_is_analysed_twice
  (git : SimpleGit.t E number) (st : StatusResult.t)
  (diffs : list (GitDiff number)) (name : jsstring) :
  SimpleGit.status git = Returns st ->
  getStagedChanges zero String_of git = Returns diffs ->
  In name (StatusResult.staged st) ->
  In name (StatusResult.created st) \/ In name (StatusResult.modified st) ->
  analysable git name = true ->
  2 <= recordsOf name diffs.
Proof.
  intros Hst Hret Hstaged Hother Ha.
  destruct (getStagedChanges_cases git)
    as [(st' & _ & Hst' & _ & Hret')|(message & Hthrow & _)];
    [|congruence].
  assert (st' = st) as -> by congruence.
  assert (diffs = analyzeFiles zero git st (stagedFiles st)) as ->
    by congruence.
  unfold recordsOf.
  rewrite (filter_map_length file (fun n => eqb_string n name)).
  destruct (analyzeFiles_files git st (stagedFiles st)) as [-> _].
  unfold stagedFiles. rewrite !filter_app, !length_app.
  assert (H1 : 1 <= length (filter (fun n => eqb_string n name)
                              (filter (analysable git)
                                 (StatusResult.staged st)))).
  { apply (filter_In_length _ _ name); [|apply eqb_string_refl].
    apply filter_In. now split. }
  destruct Hother as [Hc|Hm].
  - assert (H2 : 1 <= length (filter (fun n => eqb_string n name)
                                (filter (analysable git)
                                   (StatusResult.created st)))).
    { apply (filter_In_length _ _ name); [|apply eqb_string_refl].
      apply filter_In. now split. }
    lia.
  - assert (H2 : 1 <= length
                        (filter (fun n => eqb_string n name)
                           (filter (analysable git)
                              (filter
                                 (fun file =>
                                    Array_includes (StatusResult.staged st)
                                      file)
                                 (StatusResult.modified st))))).
    { apply (filter_In_length _ _ name); [|apply eqb_string_refl].
      apply filter_In. split; [|exact Ha].
      apply filter_In. split; [exact Hm|]. now apply Array_includes_In. }
    lia.
Qed.

(** X14: the branch name and the recent commits are read without ever
    throwing: [getBranchName] returns the output of git trimmed, or main
    where git fails, and [getRecentCommits] returns the messages of the log
    as they are, or no message where git fails. *)
Theorem context_queries_never_throw (git : SimpleGit.t E number)
  (count : number) :
  (exists branch,
      getBranchName git = Returns branch /\ trimmed branch /\
      (forall output, SimpleGit.revparse git = Returns output ->
                      branch = trim output) /\
      (forall e, SimpleGit.revparse git = Throws e -> branch = str "main"))
  /\
  (exists messages,
      getRecentCommits git count = Returns messages /\
      (forall logged, SimpleGit.log git count = Returns logged ->
                      messages = logged) /\
      (forall e, SimpleGit.log git count = Throws e -> messages = [])).
Proof.
  split.
  - unfold getBranchName.
    destruct (SimpleGit.revparse git) as [branch|e]; cbn [andThen catch].
    + exists (trim branch). split; [reflexivity|].
      split; [|split; [now intros output [= <-]|intros e [=]]].
      now destruct (trim_parts branch) as (_ & _ & _ & _ & _ & H).
    + exists (str "main"). split; [reflexivity|].
      split; [|split; [intros output [=]|reflexivity]].
      right. split; [reflexivity|]. exists (str "mai"), 110%N.
      split; reflexivity.
  - unfold getRecentCommits.
    destruct (SimpleGit.log git count) as [messages|e]; cbn [andThen catch].
    + exists messages. split; [reflexivity|].
      split; [now intros logged [= <-]|intros e [=]].
    + exists []. split; [reflexivity|]. split; [intros logged [=]|reflexivity].
Qed.

End StagedChanges.

Section StagedChangesExamples.
Import JS Effect GitAnalyzer.

Lemma getStagedChanges_records_witness :
  map file
    (analyzeFiles 0%N sampleGit sampleStatus (stagedFiles sampleStatus))
  = filter (analysable sampleGit) (stagedFiles sampleStatus) /\
  Forall (fun d => length (changes d) <= 10 /\
                   status d = getFileStatus (file d) sampleStatus)
    (analyzeFiles 0%N sampleGit sampleStatus (stagedFiles sampleStatus)).
Proof.
  apply (getStagedChanges_records 0%N (fun e => e) sampleGit); reflexivity.
Defined.

Lemma staged_file_listed_twice_is_analysed_twice_witness :
  2 <= recordsOf (str "a.ts")
         (analyzeFiles 0%N sampleGit sampleStatus (stagedFiles sampleStatus)).
Proof.
  apply (staged_file_listed_twice_is_analysed_twice 0%N (fun e => e)
           sampleGit sampleStatus);
    [reflexivity|reflexivity|vm_compute; tauto|vm_compute; tauto|reflexivity].
Defined.

End StagedChangesExamples.

(** ** Properties of the configuration manager *)

Section SpreadFacts.
Import JS Effect ConfigManager.

Lemma getOwnProperty_defineProperty props name v k :
  getOwnProperty (defineProperty props name v) k
  = if eqb_string name k then v else getOwnProperty props k.
Proof.
  induction props as [|[k0 w] props IH].
  - reflexivity.
  - cbn [defineProperty].
    destruct (eqb_string k0 name) eqn:H0.
    + apply eqb_string_eq in H0. subst k0. cbn [getOwnProperty].
      destruct (eqb_string name k); reflexivity.
    + cbn [getOwnProperty]. rewrite IH.
      destruct (eqb_string k0 k) eqn:H1; [|reflexivity].
      apply eqb_string_eq in H1. subst k0.
      destruct (eqb_string name k) eqn:H2; [|reflexivity].
      apply eqb_string_eq in H2. subst name.
      now rewrite eqb_string_refl in H0.
Qed.

Lemma findProperty_app props1 props2 k :
  findProperty (props1 ++ props2) k
  = match findProperty props1 k with
    | Some v => Some v
    | None => findProperty props2 k
    end.
Proof.
  induction props1 as [|[k0 w] props1 IH]; [reflexivity|].
  cbn [app findProperty]. now destruct (eqb_string k0 k).
Qed.

Lemma getOwnProperty_spread target source k :
  getOwnProperty (spread target source) k
  = overriding source k (getOwnProperty target k).
Proof.
  unfold spread, overriding, lastProperty.
  generalize (ownEnumerable source) as ps. intros ps. revert target.
  induction ps as [|[name v] ps IH]; intros target; [reflexivity|].
  cbn [fold_left fst snd rev]. rewrite IH, findProperty_app.
  destruct (findProperty (rev ps) k); [reflexivity|].
  cbn [findProperty]. rewrite getOwnProperty_defineProperty.
  now destruct (eqb_string name k).
Qed.

Lemma falsy_ownEnumerable v : toBoolean v = false -> ownEnumerable v = [].
Proof.
  destruct v as [| | b|q|s|elements|props]; try reflexivity; try discriminate.
  destruct s; [reflexivity|discriminate].
Qed.

End SpreadFacts.

Section ConfigFacts.
Import JS Effect ConfigManager.

Context {E : Type}
  (readFile : jsstring -> result E jsstring)
  (writeFile : jsstring -> jsstring -> result E unit)
  (GEMINI_API_KEY : option jsstring)
  (JSON_stringify : value -> jsstring)
  (String_of : E -> jsstring)
  (ofExn : exn -> E).

Lemma loadConfigFile_value (path : jsstring) :
  loadConfigFile readFile ofExn path = Returns (fileValue readFile path).
Proof.
  unfold loadConfigFile, fileValue.
  destruct (readFile path) as [content|e]; [|reflexivity].
  cbn [andThen]. now destruct (JSON_parse content).
Qed.

Lemma loadConfig_chosen (this : ConfigManager.t) :
  loadConfig readFile GEMINI_API_KEY ofExn this
  = Returns
      (Obj (spread (defaultConfig GEMINI_API_KEY)
              (or_else (fileValue readFile (configPath this))
                 (fileValue readFile (globalConfigPath this))))).
Proof.
  unfold loadConfig, or_else. rewrite !loadConfigFile_value.
  cbn [andThen].
  destruct (toBoolean (fileValue readFile (configPath this)));
    [reflexivity|].
  destruct (toBoolean (fileValue readFile (globalConfigPath this))) eqn:Hg;
    [reflexivity|].
  cbn [catch andThen]. unfold spread.
  now rewrite (falsy_ownEnumerable _ Hg).
Qed.

(** X15: [loadConfig] never throws.  It reads one file, the local one where
    that holds a truthy JSON value and else the global one, and returns an
    object in which a property the file's value has is the file's and every
    other property is the default's: the key of the environment or the empty
    string, conventional commits, 72, no body. *)
Theorem loadConfig_file_over_defaults (this : ConfigManager.t) :
  let chosen :=
    or_else (fileValue readFile (configPath this))
      (fileValue readFile (globalConfigPath this)) in
  exists props,
    loadConfig readFile GEMINI_API_KEY ofExn this = Returns (Obj props) /\
    forall name,
      getOwnProperty props name
      = overriding chosen name
          (getOwnProperty
             [ (str "geminiApiKey",
                match GEMINI_API_KEY with
                | Some (c :: key) => Str (c :: key)
                | Some [] | None => Str []
                end);
               (str "conventionalCommits", Bool true);
               (str "maxLength", Num 72);
               (str "includeBody", Bool false) ] name).
Proof.
  intros chosen. eexists. split; [apply loadConfig_chosen|].
  intros name. fold chosen. rewrite getOwnProperty_spread.
  f_equal. unfold defaultConfig.
  now destruct GEMINI_API_KEY as [[|c key]|].
Qed.

(** X16: [saveConfig] writes, to the global or to the local path, the text
    of an object in which a property of the update is the update's, and
    every other property is the one the file held before; a file that cannot
    be read or is not JSON counts as holding nothing.  It returns when the
    write returns, and throws an [Error] with a message that begins with
    Failed to save config: when the write throws. *)
Theorem saveConfig_merges_into_the_file (this : ConfigManager.t)
  (config : value) (global : bool) :
  let path := if global then globalConfigPath this else configPath this in
  exists props,
    (forall name,
        getOwnProperty props name
        = overriding config name
            (overriding (fileValue readFile path) name Undefined)) /\
    saveConfig readFile writeFile JSON_stringify String_of ofExn
      this config global
    = match writeFile path (JSON_stringify (Obj props)) with
      | Returns done => Returns done
      | Throws error =>
          Throws (Error (str "Failed to save config: "
                           ++ describe String_of error))
      end.
Proof.
  intros path.
  exists (newConfig (fileValue readFile path) config). split.
  - intros name. unfold newConfig. rewrite !getOwnProperty_spread.
    f_equal. unfold or_else.
    destruct (toBoolean (fileValue readFile path)) eqn:Ht; [reflexivity|].
    unfold overriding. now rewrite (falsy_ownEnumerable _ Ht).
  - unfold saveConfig. fold path. rewrite loadConfigFile_value.
    cbn [andThen]. unfold catch.
    now destruct (writeFile path
                    (JSON_stringify
                       (Obj (newConfig (fileValue readFile path) config)))).
Qed.

End ConfigFacts.

Section ConfigFiles.
Import JS Effect ConfigManager.

(** X17: a local file that holds a truthy JSON value, an empty object too,
    hides the global file: [loadConfig] gives the same on two file systems
    that hold the same local file, whatever the global files hold. *)
Theorem local_file_hides_the_global_file {E : Type}
  (readFile1 readFile2 : jsstring -> result E jsstring)
  (GEMINI_API_KEY : option jsstring) (ofExn : exn -> E)
  (this : ConfigManager.t) :
  readFile1 (configPath this) = readFile2 (configPath this) ->
  toBoolean (fileValue readFile1 (configPath this)) = true ->
  loadConfig readFile1 GEMINI_API_KEY ofExn this
  = loadConfig readFile2 GEMINI_API_KEY ofExn this.
Proof.
  intros Hsame Htruthy. rewrite !loadConfig_chosen.
  assert (Hv : fileValue readFile2 (configPath this)
               = fileValue readFile1 (configPath this)).
  { unfold fileValue. now rewrite Hsame. }
  unfold or_else. now rewrite Hv, Htruthy.
Qed.

Lemma local_file_hides_the_global_file_witness :
  loadConfig localOnly None (fun _ => str "SyntaxError") sampleManager
  = loadConfig localAndGlobal None (fun _ => str "SyntaxError") sampleManager.
Proof.
  apply local_file_hides_the_global_file; vm_compute; reflexivity.
Defined.

End ConfigFiles.

(** ** Properties of the command line *)

Section CommitCommand.
Import JS Cli.

(** X18: a message without a double quote is put between the quotes of the
    commit command as it is, on every platform: a dollar sign, a backquote
    or a backslash in it is not escaped. *)
Theorem message_without_quote_is_not_escaped (win32 : bool)
  (selectedMessage : jsstring) :
  includes 34%N selectedMessage = false ->
  commitCommand win32 selectedMessage
  = str "git commit -m " ++ dquote ++ selectedMessage ++ dquote.
Proof.
  intros H. unfold commitCommand. do 2 f_equal.
  f_equal. unfold escapedMessage.
  induction selectedMessage as [|c m IH]; [reflexivity|].
  cbn [includes existsb] in H. apply orb_false_iff in H as [Hc Hm].
  cbn [flat_map]. rewrite N.eqb_sym, Hc. cbn [app]. f_equal.
  now apply IH.
Qed.

Lemma message_without_quote_is_not_escaped_witness :
  commitCommand false (str "fix \ $(id) `id`")
  = str "git commit -m " ++ dquote ++ str "fix \ $(id) `id`" ++ dquote.
Proof.
  apply message_without_quote_is_not_escaped. reflexivity.
Defined.

(** X19: off win32 every double quote of the escaped message stands right
    after a backslash. *)
Theorem escaped_quote_follows_backslash (selectedMessage : jsstring)
  (before after : jsstring) :
  escapedMessage false selectedMessage = before ++ 34%N :: after ->
  exists before', before = before' ++ [92%N].
Proof.
  unfold escapedMessage. revert before.
  induction selectedMessage as [|c m IH]; intros before H.
  - destruct before; discriminate.
  - cbn [flat_map] in H. destruct (c =? 34)%N eqn:Hc.
    + cbn [app dquote] in H.
      destruct before as [|x [|y before]].
      * discriminate.
      * injection H as Hx _. subst x. now exists [].
      * injection H as Hx Hy H. subst x y. destruct (IH _ H) as (p & ->).
        now exists (92%N :: 34%N :: p).
    + cbn [app] in H. destruct before as [|x before].
      * injection H as Hx _. subst c. discriminate.
      * injection H as Hx H. subst x. destruct (IH _ H) as (p & ->).
        now exists (c :: p).
Qed.

Lemma escaped_quote_follows_backslash_witness :
  exists before', str "say \" = before' ++ [92%N].
Proof.
  apply (escaped_quote_follows_backslash (str "say " ++ dquote ++ str "hi")
           (str "say \") (str "hi")).
  reflexivity.
Defined.

End CommitCommand.

Section SetOptionFacts.
Import JS Cli.

Context (String_toLowerCase : jsstring -> jsstring)
  (parseInt10 : jsstring -> value).

Lemma split_head (sep : char16) (s : jsstring) :
  exists key rest,
    split sep s = key :: rest /\
    (key = [] <-> s = [] \/ startsWith sep s = true) /\
    (rest = [] <-> includes sep s = false).
Proof.
  induction s as [|c s (key & rest & Hs & Hk & Hr)].
  - exists [], []. split; [reflexivity|]. split; [tauto|]. tauto.
  - cbn [split startsWith includes existsb]. rewrite (N.eqb_sym sep c).
    destruct (c =? sep)%N eqn:Hc.
    + exists [], (split sep s). split; [reflexivity|].
      split; [tauto|]. split; [|discriminate].
      intros H. now destruct (split_nonempty sep s).
    + rewrite Hs. exists (c :: key), rest. split; [reflexivity|].
      split; [|exact Hr].
      split; [discriminate|]. intros [H|H]; discriminate.
Qed.

Lemma parseSet_update_cases (key value : jsstring) :
  exists update,
    (if eqb_string key (str "conventionalCommits")
        || eqb_string key (str "includeBody")
     then Update (assign key
                    (Bool (eqb_string (String_toLowerCase value)
                             (str "true"))))
     else if eqb_string key (str "maxLength")
     then Update (assign key (parseInt10 value))
     else Update (assign key (Str value)))
    = Update update.
Proof.
  destruct (eqb_string key (str "conventionalCommits")
            || eqb_string key (str "includeBody")); [eauto|].
  destruct (eqb_string key (str "maxLength")); eauto.
Qed.

(** X20: the [config] action takes the argument of [--set] as badly formed
    exactly when it is not empty and has no equals sign, or begins with an
    equals sign.  The empty argument is not rejected: it skips the branch,
    and the action goes on to the interactive set-up.  Every other argument
    gives an update to save. *)
Theorem parseSet_invalid_exactly (set : jsstring) :
  (parseSet String_toLowerCase parseInt10 set = NotSet <-> set = []) /\
  (parseSet String_toLowerCase parseInt10 set = InvalidFormat
   <-> (set <> [] /\ includes 61%N set = false)
       \/ startsWith 61%N set = true) /\
  ((exists update,
       parseSet String_toLowerCase parseInt10 set = Update update)
   <-> includes 61%N set = true /\ startsWith 61%N set = false).
Proof.
  unfold parseSet. destruct set as [|c0 set0].
  - cbn [toBoolean]. split; [tauto|]. split.
    + split; [discriminate|]. intros [[H _]|H]; [now destruct H|discriminate].
    + split; [intros (update & H); discriminate|]. intros [H _]. discriminate.
  - cbn [toBoolean]. remember (c0 :: set0) as set eqn:Hset.
    assert (Hne : set <> []) by (subst set; discriminate).
    destruct (split_head 61%N set) as (key & rest & -> & Hk & Hr).
    destruct rest as [|value rest].
    + assert (Hi : includes 61%N set = false) by now apply Hr.
      split; [split; [discriminate|contradiction]|].
      split; [split; [now left|reflexivity]|].
      split; [intros (update & H); discriminate|].
      intros [H _]. congruence.
    + assert (Hi : includes 61%N set = true).
      { apply not_false_iff_true. intros E. apply Hr in E. discriminate. }
      destruct key as [|c key].
      * cbn [toBoolean negb].
        assert (Hs : startsWith 61%N set = true).
        { destruct Hk as [Hk _]. destruct (Hk eq_refl) as [H|H];
            [contradiction|exact H]. }
        split; [split; [discriminate|contradiction]|].
        split; [split; [now right|reflexivity]|].
        split; [intros (update & H); discriminate|].
        intros [_ H]. congruence.
      * cbn [toBoolean negb].
        assert (Hs : startsWith 61%N set = false).
        { apply not_true_iff_false. intros E.
          assert (c :: key = []) by (apply Hk; now right). discriminate. }
        destruct (parseSet_update_cases (c :: key) value) as (update & ->).
        split; [split; [discriminate|contradiction]|].
        split.
        { split; [discriminate|]. intros [[_ H]|H]; congruence. }
        split; [now intros _|]. intros _. now exists update.
Qed.

(** X21: the value of [config --set] ends at the second equals sign: what
    comes after it is dropped, so a value with an equals sign in it is saved
    cut short. *)
Theorem parseSet_cuts_at_second_equals (key value rest : jsstring) :
  includes 61%N key = false ->
  includes 61%N value = false ->
  parseSet String_toLowerCase parseInt10
    (key ++ str "=" ++ value ++ str "=" ++ rest)
  = parseSet String_toLowerCase parseInt10 (key ++ str "=" ++ value).
Proof.
  intros Hk Hv. unfold parseSet.
  change (key ++ str "=" ++ value ++ str "=" ++ rest)
    with (key ++ 61%N :: value ++ 61%N :: rest).
  change (key ++ str "=" ++ value) with (key ++ 61%N :: value).
  assert (Hne : forall tail, toBoolean (Str (key ++ 61%N :: tail)) = true)
    by (intros tail; now destruct key).
  rewrite !Hne.
  rewrite !split_app, (split_single _ _ Hk), (split_single _ _ Hv).
  reflexivity.
Qed.

End SetOptionFacts.

Section SetOptionExamples.
Import JS Cli.

Lemma parseSet_cuts_at_second_equals_witness :
  parseSet (fun s => s) (fun _ => Null)
    (str "geminiApiKey" ++ str "=" ++ str "abc" ++ str "=" ++ str "def")
  = parseSet (fun s => s) (fun _ => Null)
      (str "geminiApiKey" ++ str "=" ++ str "abc").
Proof.
  apply parseSet_cuts_at_second_equals; reflexivity.
Defined.

End SetOptionExamples.

(** ** The shebang script *)

Section ShebangFacts.
Import JS FixCli.

Lemma beginsWith_app (needle rest : jsstring) :
  beginsWith needle (needle ++ rest) = true.
Proof.
  induction needle as [|c needle IH]; [reflexivity|].
  cbn [app beginsWith]. now rewrite N.eqb_refl, IH.
Qed.

(** X22: after the script the file begins with the shebang line, and a
    second run writes nothing: the script leaves a file it has fixed as it
    is. *)
Theorem shebang_is_added_once (content : jsstring) :
  beginsWith shebang (after content) = true /\
  fixed (after content) = None /\
  after (after content) = after content.
Proof.
  assert (H : beginsWith shebang (after content) = true).
  { unfold after, fixed.
    destruct (beginsWith shebang content) eqn:Hb; cbn [negb].
    - exact Hb.
    - apply beginsWith_app. }
  split; [exact H|].
  unfold after at 2. unfold fixed at 1. unfold fixed at 1.
  rewrite H. cbn [negb]. now split.
Qed.

End ShebangFacts.
